(** * TulipScout: rate-limited OSINT sweep, verified against the Python source

    Shallow embedding of
    - [src/utils/rate_limiter.py]  (TokenBucket, RateLimiter),
    - [src/config.py]              (the rate-limiting settings),
    - [src/agents/hunter_v2.py]    (HunterAgentV2),
    - [scripts/hunter_v2_live.py]  (the URL / company-name extractor).

    Conventions of the embedding.
    - Python [float] token counts and [datetime]/[timedelta] seconds are
      exact rationals ([Q]); equalities on them are stated with [==].
    - The wall clock is part of an explicit [World]; only [asyncio.sleep]
      moves it.  A sleep of [d] seconds lasts [max 0 d] plus a lag taken from
      the world's list of lags (the event loop may resume a task late).
    - [logger.info]/[logger.error] calls, sleeps and calls of the injected
      search function are recorded, in order, in the world's trace.
    - Python exceptions are values of [PyExc]; a function that can raise
      returns a [PyResult].  [Interrupt] stands for the exceptions outside
      the class [Exception] (cancellation, keyboard interrupt, exit), which
      [except Exception] does not catch.
    - Python [str] is [string], one character per code point below 256;
      case is that of Unicode on these code points, except that the
      title-case forms of U+00B5 and U+00FF lie above 255 and are not
      modelled.  Dictionaries are association lists in insertion order.
    - The search function the agent is given and the Gemini service act on
      a state of their own ([services]); they do not reach the clock, the
      logger or the limiter of the process.  A search call returns, raises
      an [Exception] or is interrupted; a Gemini call returns or raises an
      [Exception]. *)

From Stdlib Require Import ZArith QArith Qminmax Lia Lqa List Bool.
From Stdlib Require Import Ascii String.
Import ListNotations.
Open Scope string_scope.
Open Scope Q_scope.

(** ** Exceptions and results *)

Inductive PyExc : Type :=
| Exception (msg : string)
| KeyError (key : string)
| ValueError (msg : string)
| IndexError (msg : string)
| ZeroDivisionError
| Interrupt (name : string).

Inductive PyResult (A : Type) : Type :=
| Ok (a : A)
| Raise (e : PyExc).
Arguments Ok {A} a.
Arguments Raise {A} e.

Definition bind {A B : Type} (m : PyResult A) (k : A -> PyResult B) : PyResult B :=
  match m with
  | Ok a => k a
  | Raise e => Raise e
  end.

Notation "x <- m ;; k" := (bind m (fun x => k))
  (at level 61, m at next level, right associativity).
Notation "' p <- m ;; k" := (bind m (fun p => k))
  (at level 61, p pattern, m at next level, right associativity).

(** ** The world: clock, scheduler lags, trace *)

Inductive Event : Type :=
| EvLog (event : string)
| EvSleep (seconds : Q)
| EvSearch (query : string).

Record World : Type := mkWorld {
  now : Q;
  lags : list Q;
  trace : list Event
}.

(** [datetime.utcnow()] *)
Definition utcnow (w : World) : Q := now w.

(** [logger.info(event, ...)] / [logger.error(event, ...)] *)
Definition log (event : string) (w : World) : World :=
  {| now := now w; lags := lags w; trace := trace w ++ [EvLog event] |}.

(** [await asyncio.sleep(d)]: a non-positive delay only yields to the loop. *)
Definition sleep (d : Q) (w : World) : World :=
  {| now := now w + Qmax 0 d + hd 0 (lags w);
     lags := tl (lags w);
     trace := trace w ++ [EvSleep d] |}.

(** Every lag of the scheduler is non-negative. *)
Definition lags_ok (w : World) : Prop := Forall (fun l => 0 <= l) (lags w).

(** ** src/config.py: the rate-limiting settings *)

Record Settings : Type := mkSettings {
  linkedin_daily_limit : Z;
  linkedin_hourly_limit : Z;
  linkedin_min_delay_seconds : Z;
  linkedin_max_delay_seconds : Z
}.

(** The defaults of [class Settings]. *)
Definition settings : Settings :=
  {| linkedin_daily_limit := 40;
     linkedin_hourly_limit := 10;
     linkedin_min_delay_seconds := 10;
     linkedin_max_delay_seconds := 15 |}.

(** ** src/utils/rate_limiter.py: TokenBucket *)

Record TokenBucket : Type := mkBucket {
  capacity : Z;
  tokens : Q;
  last_refill : Q;
  refill_rate : Q
}.

(** [TokenBucket(capacity=c, refill_rate=r)] with [__post_init__]. *)
Definition TokenBucket_init (c : Z) (r : Q) (w : World) : TokenBucket :=
  {| capacity := c;
     tokens := inject_Z c;
     last_refill := utcnow w;
     refill_rate := r |}.

(** [TokenBucket.refill] *)
Definition refill (b : TokenBucket) (w : World) : TokenBucket :=
  let now_ := utcnow w in
  let elapsed := now_ - last_refill b in
  let new_tokens := elapsed * refill_rate b in
  {| capacity := capacity b;
     tokens := Qmin (inject_Z (capacity b)) (tokens b + new_tokens);
     last_refill := now_;
     refill_rate := refill_rate b |}.

Definition take (n : Z) (b : TokenBucket) : TokenBucket :=
  {| capacity := capacity b;
     tokens := tokens b - inject_Z n;
     last_refill := last_refill b;
     refill_rate := refill_rate b |}.

(** [TokenBucket.consume]; the division raises when [refill_rate] is 0. *)
Definition consume (n : Z) (b : TokenBucket) (w : World)
  : PyResult (TokenBucket * World) :=
  let b1 := refill b w in
  if Qle_bool (inject_Z n) (tokens b1) then
    Ok (take n b1, w)
  else
    let tokens_needed := inject_Z n - tokens b1 in
    if Qeq_bool (refill_rate b1) 0 then Raise ZeroDivisionError
    else
      let wait_time := tokens_needed / refill_rate b1 in
      let w1 := log "rate_limit_waiting" w in
      let w2 := sleep wait_time w1 in
      let b2 := refill b1 w2 in
      Ok (take n b2, w2).

(** ** Python dictionaries with string keys, in insertion order *)

Definition PyDict (V : Type) : Type := list (string * V).

Fixpoint dict_lookup {V : Type} (d : PyDict V) (k : string) : option V :=
  match d with
  | [] => None
  | (k', v) :: d' => if String.eqb k' k then Some v else dict_lookup d' k
  end.

(** [d.get(k, default)] *)
Definition dict_get {V : Type} (d : PyDict V) (k : string) (default : V) : V :=
  match dict_lookup d k with
  | Some v => v
  | None => default
  end.

(** [d[k]] *)
Definition dict_item {V : Type} (d : PyDict V) (k : string) : PyResult V :=
  match dict_lookup d k with
  | Some v => Ok v
  | None => Raise (KeyError k)
  end.

(** [k in d] *)
Definition dict_contains {V : Type} (d : PyDict V) (k : string) : bool :=
  match dict_lookup d k with
  | Some _ => true
  | None => false
  end.

(** [d[k] = v]: an existing key keeps its position. *)
Fixpoint dict_set {V : Type} (d : PyDict V) (k : string) (v : V) : PyDict V :=
  match d with
  | [] => [(k, v)]
  | (k', v') :: d' =>
      if String.eqb k' k then (k', v) :: d' else (k', v') :: dict_set d' k v
  end.

(** [d.keys()] *)
Definition dict_keys {V : Type} (d : PyDict V) : list string := map fst d.

(** ** src/utils/rate_limiter.py: RateLimiter *)

Record RateLimiter : Type := mkLimiter {
  daily_bucket : TokenBucket;
  hourly_bucket : TokenBucket;
  last_request_time : Q;
  region_delays : PyDict Z
}.

(** [RateLimiter.__init__] *)
Definition RateLimiter_init (st : Settings) (w : World) : RateLimiter :=
  let daily_refill_rate :=
    inject_Z (linkedin_daily_limit st) / inject_Z (24 * 60 * 60) in
  let hourly_refill_rate :=
    inject_Z (linkedin_hourly_limit st) / inject_Z (60 * 60) in
  {| daily_bucket :=
       TokenBucket_init (linkedin_daily_limit st) daily_refill_rate w;
     hourly_bucket :=
       TokenBucket_init (linkedin_hourly_limit st) hourly_refill_rate w;
     last_request_time := utcnow w;
     region_delays := [("Eastern_Europe", 12%Z); ("Far_East", 15%Z)] |}.

Definition Qlt_bool (x y : Q) : bool := negb (Qle_bool y x).

(** The delay [acquire] enforces for [region]. *)
Definition min_delay_of (st : Settings) (l : RateLimiter) (region : string) : Z :=
  dict_get (region_delays l) region (linkedin_min_delay_seconds st).

(** The first gate of [acquire]: wait out the minimum delay. *)
Definition wait_min_delay (st : Settings) (region : string) (l : RateLimiter)
    (w : World) : World :=
  let min_delay := inject_Z (min_delay_of st l region) in
  let elapsed := utcnow w - last_request_time l in
  if Qlt_bool elapsed min_delay then
    let wait_time := min_delay - elapsed in
    sleep wait_time (log "rate_limit_min_delay" w)
  else w.

(** [RateLimiter.acquire] *)
Definition acquire (st : Settings) (region : string) (l : RateLimiter)
    (w : World) : PyResult (RateLimiter * World) :=
  let w1 := wait_min_delay st region l w in
  '(d, w2) <- consume 1 (daily_bucket l) w1 ;;
  '(h, w3) <- consume 1 (hourly_bucket l) w2 ;;
  Ok ({| daily_bucket := d;
         hourly_bucket := h;
         last_request_time := utcnow w3;
         region_delays := region_delays l |},
      log "rate_limit_acquired" w3).

(** [RateLimiter.get_status]: the refilled limiter and the four readings. *)
Definition get_status (l : RateLimiter) (w : World) : RateLimiter * PyDict Q :=
  let d := refill (daily_bucket l) w in
  let h := refill (hourly_bucket l) w in
  ({| daily_bucket := d; hourly_bucket := h;
      last_request_time := last_request_time l;
      region_delays := region_delays l |},
   [("daily_tokens_remaining", tokens d);
    ("daily_capacity", inject_Z (capacity d));
    ("hourly_tokens_remaining", tokens h);
    ("hourly_capacity", inject_Z (capacity h))]).

(** A caller's view of one bucket: refills, consumes, and its own sleeps. *)
Inductive BucketOp : Type :=
| OpRefill
| OpConsume (n : Z)
| OpSleep (d : Q).

Fixpoint run_ops (ops : list BucketOp) (b : TokenBucket) (w : World)
  : PyResult (TokenBucket * World) :=
  match ops with
  | [] => Ok (b, w)
  | OpRefill :: ops' => run_ops ops' (refill b w) w
  | OpConsume n :: ops' =>
      '(b', w') <- consume n b w ;; run_ops ops' b' w'
  | OpSleep d :: ops' => run_ops ops' b (sleep d w)
  end.

(** ** Python [str] operations used by the hunter and the extractor *)

(** A one-character string holding the double quote, and the line feed. *)
Definition dquote : string := String "034"%char "".
Definition nl : string := String "010"%char "".
Definition quoted (s : string) : string := dquote ++ s ++ dquote.

Fixpoint str_take (n : nat) (s : string) : string :=
  match n, s with
  | S n', String c s' => String c (str_take n' s')
  | _, _ => ""
  end.

Fixpoint str_drop (n : nat) (s : string) : string :=
  match n, s with
  | S n', String _ s' => str_drop n' s'
  | _, _ => s
  end.

(** [s.split(sep)] for a one-character separator. *)
Fixpoint str_split (sep : ascii) (s : string) : list string :=
  match s with
  | "" => [""]
  | String c s' =>
      if Ascii.eqb c sep then "" :: str_split sep s'
      else match str_split sep s' with
           | [] => [String c ""]
           | h :: t => String c h :: t
           end
  end.

(** [s.replace(old, new)] for a non-empty [old]: occurrences are found left
    to right and do not overlap; [skip] counts the characters of the current
    occurrence still to be dropped. *)
Fixpoint replace_from (old new : string) (skip : nat) (s : string) : string :=
  match s with
  | "" => ""
  | String c s' =>
      match skip with
      | S k => replace_from old new k s'
      | O =>
          if String.prefix old s
          then new ++ replace_from old new (String.length old - 1) s'
          else String c (replace_from old new 0 s')
      end
  end.

Definition str_replace (old new s : string) : string := replace_from old new 0 s.

(** Case of the characters below 256. *)
Definition in_range (lo hi : nat) (c : ascii) : bool :=
  let n := nat_of_ascii c in (lo <=? n)%nat && (n <=? hi)%nat.

(** The characters with a lower-case form, 32 places above them: A-Z,
    U+00C0-U+00D6 and U+00D8-U+00DE. *)
Definition has_lower (c : ascii) : bool :=
  in_range 65 90 c || in_range 192 214 c || in_range 216 222 c.

(** The characters with a one-character title-case form below 256, 32
    places below them: a-z, U+00E0-U+00F6 and U+00F8-U+00FE. *)
Definition has_upper (c : ascii) : bool :=
  in_range 97 122 c || in_range 224 246 c || in_range 248 254 c.

(** The characters Unicode calls cased. *)
Definition is_cased (c : ascii) : bool :=
  in_range 65 90 c || in_range 97 122 c || in_range 170 170 c
  || in_range 181 181 c || in_range 186 186 c || in_range 192 214 c
  || in_range 216 246 c || in_range 248 255 c.

(** [c.lower()] *)
Definition to_lower (c : ascii) : ascii :=
  if has_lower c then ascii_of_nat (nat_of_ascii c + 32) else c.

(** [c.title()]: the sharp s, U+00DF, becomes two letters.  U+00B5 and
    U+00FF, whose title-case forms are U+039C and U+0178, are kept. *)
Definition to_title (c : ascii) : string :=
  if has_upper c then String (ascii_of_nat (nat_of_ascii c - 32)) ""
  else if in_range 223 223 c then "Ss"
  else String c "".

(** The characters whose title-case form the model holds. *)
Definition title_in_model (c : ascii) : bool :=
  negb (in_range 181 181 c || in_range 255 255 c).

(** [s.title()]: a character that follows a cased one is lowered, any other
    is put in title case. *)
Fixpoint title_from (previous_is_cased : bool) (s : string) : string :=
  match s with
  | "" => ""
  | String c s' =>
      (if previous_is_cased then String (to_lower c) "" else to_title c)
      ++ title_from (is_cased c) s'
  end.

Definition str_title (s : string) : string := title_from false s.

(** [template.format] with keyword arguments [kwargs], for templates whose
    replacement fields are
    plain names: [{{] and [}}] are escapes, [{name}] is looked up in
    [kwargs], an empty name asks for a positional argument there is none of.
    [field] is [Some name] while the characters of a field are being read. *)
Fixpoint format_from (kwargs : PyDict string) (field : option string)
    (t : string) : PyResult string :=
  match t with
  | "" =>
      match field with
      | None => Ok ""
      | Some _ => Raise (ValueError "expected '}' before end of string")
      end
  | String c t' =>
      match field with
      | None =>
          if Ascii.eqb c "{" then
            match t' with
            | String "{" t'' =>
                r <- format_from kwargs None t'' ;; Ok (String "{" r)
            | _ => format_from kwargs (Some "") t'
            end
          else if Ascii.eqb c "}" then
            match t' with
            | String "}" t'' =>
                r <- format_from kwargs None t'' ;; Ok (String "}" r)
            | _ => Raise (ValueError "Single '}' encountered in format string")
            end
          else r <- format_from kwargs None t' ;; Ok (String c r)
      | Some name =>
          if Ascii.eqb c "}" then
            if String.eqb name "" then
              Raise (IndexError "Replacement index 0 out of range for positional args tuple")
            else
              v <- dict_item kwargs name ;;
              r <- format_from kwargs None t' ;;
              Ok (v ++ r)
          else format_from kwargs (Some (name ++ String c "")) t'
      end
  end.

Definition str_format (t : string) (kwargs : PyDict string) : PyResult string :=
  format_from kwargs None t.

(** [l[i]] on a list *)
Definition list_item {A : Type} (l : list A) (i : nat) : PyResult A :=
  match nth_error l i with
  | Some a => Ok a
  | None => Raise (IndexError "list index out of range")
  end.

(** [str(e)] *)
Definition str_exc (e : PyExc) : string :=
  match e with
  | Exception msg => msg
  | KeyError key => "'" ++ key ++ "'"
  | ValueError msg => msg
  | IndexError msg => msg
  | ZeroDivisionError => "float division by zero"
  | Interrupt _ => ""
  end.


(** [isinstance(e, Exception)] *)
Definition is_exception (e : PyExc) : bool :=
  match e with
  | Interrupt _ => false
  | _ => true
  end.

(** ** The process: world, the module-level limiter, external services

    [X] is the state of the collaborators the agent is given (the search
    backend, the Gemini service).  A call of the Gemini service either
    returns a text or raises an [Exception] with a message.  A call of the
    injected search function may also be interrupted: it then raises an
    exception outside [Exception], such as [CancelledError] or
    [KeyboardInterrupt]. *)

Inductive Outcome : Type :=
| Returns (text : string)
| Raises (message : string).

Definition Service (X : Type) : Type := string -> X -> X * Outcome.

Inductive SearchOutcome : Type :=
| Ordinary (o : Outcome)
| Interrupted (name : string).

Definition SearchFn (X : Type) : Type := string -> X -> X * SearchOutcome.

Record Process (X : Type) : Type := mkProcess {
  world : World;
  linkedin_rate_limiter : RateLimiter;
  services : X
}.
Arguments mkProcess {X} _ _ _.
Arguments world {X} _.
Arguments linkedin_rate_limiter {X} _.
Arguments services {X} _.

(** Stateful code that may raise; the state reached at a raise is kept. *)
Definition Action (X A : Type) : Type := Process X -> PyResult A * Process X.

Definition ret {X A : Type} (a : A) : Action X A := fun p => (Ok a, p).

Definition and_then {X A B : Type} (m : Action X A) (k : A -> Action X B)
  : Action X B :=
  fun p => match m p with
           | (Ok a, p') => k a p'
           | (Raise e, p') => (Raise e, p')
           end.

Notation "x <~ m ;; k" := (and_then m (fun x => k))
  (at level 61, m at next level, right associativity).

(** A pure step that may raise. *)
Definition lift {X A : Type} (r : PyResult A) : Action X A := fun p => (r, p).

(** [try: body  except Exception as e: handler e] *)
Definition try_except {X A : Type} (body : Action X A)
    (handler : PyExc -> Action X A) : Action X A :=
  fun p => match body p with
           | (Ok a, p') => (Ok a, p')
           | (Raise e, p') =>
               if is_exception e then handler e p' else (Raise e, p')
           end.

Definition on_world {X : Type} (f : World -> World) : Action X unit :=
  fun p => (Ok tt, mkProcess (f (world p)) (linkedin_rate_limiter p) (services p)).

Definition logging {X : Type} (event : string) : Action X unit :=
  on_world (log event).

Definition sleeping {X : Type} (d : Q) : Action X unit := on_world (sleep d).

Definition record_search (q : string) (w : World) : World :=
  {| now := now w; lags := lags w; trace := trace w ++ [EvSearch q] |}.

(** [await self.search(query)] *)
Definition call_search {X : Type} (search : SearchFn X) (query : string)
  : Action X string :=
  fun p =>
    let (x', out) := search query (services p) in
    let p' := mkProcess (record_search query (world p))
                        (linkedin_rate_limiter p) x' in
    match out with
    | Ordinary (Returns text) => (Ok text, p')
    | Ordinary (Raises message) => (Raise (Exception message), p')
    | Interrupted name => (Raise (Interrupt name), p')
    end.

(** [await self.gemini.generate_text(prompt, temperature=0.3)] *)
Definition call_gemini {X : Type} (generate_text : Service X) (prompt : string)
  : Action X string :=
  fun p =>
    let (x', out) := generate_text prompt (services p) in
    let p' := mkProcess (world p) (linkedin_rate_limiter p) x' in
    match out with
    | Returns text => (Ok text, p')
    | Raises message => (Raise (Exception message), p')
    end.

(** ** src/agents/hunter_v2.py *)

Definition OSINT_PROTOCOLS : PyDict (PyDict string) :=
  [("portfolio_match",
    [("name", "Portfolio Match (Hidden Web)");
     ("query_template",
      "filetype:pdf " ++ quoted "wine portfolio" ++ " (" ++ quoted "Israel"
        ++ " OR " ++ quoted "Kosher" ++ ") site:.{country_code}");
     ("description",
      "Finds importers with PDF catalogs showing Israeli/Kosher wine expertise")]);
   ("direct_executive",
    [("name", "Direct Executive (Decision Maker)");
     ("query_template",
      "site:linkedin.com/in/ (" ++ quoted "Wine Importer" ++ " OR "
        ++ quoted "Distributor" ++ " OR " ++ quoted "CEO" ++ ") ("
        ++ quoted "{country_name}" ++ ") -intitle:jobs");
     ("description", "Finds wine industry executives in target country")]);
   ("official_entity",
    [("name", "Official Entity (Vivino Related)");
     ("query_template",
      "related:vivino.com " ++ quoted "wine importer" ++ " "
        ++ quoted "{country_name}");
     ("description", "Finds major wine distributors recognized by Vivino")]);
   ("competitor_piggyback",
    [("name", "Competitor Piggyback");
     ("query_template",
      quoted "imported by" ++ " (" ++ quoted "Yarden" ++ " OR "
        ++ quoted "Golan Heights" ++ " OR " ++ quoted "Recanati" ++ " OR "
        ++ quoted "Teperberg" ++ ") site:.{country_code}");
     ("description", "Finds existing Israeli wine importers")])].

Definition APPROVED_COUNTRIES : PyDict (PyDict string) :=
  [("Poland", [("code", "pl"); ("name", "Poland")]);
   ("Romania", [("code", "ro"); ("name", "Romania")]);
   ("Czech Republic", [("code", "cz"); ("name", "Czech Republic")]);
   ("Japan", [("code", "jp"); ("name", "Japan")]);
   ("South Korea", [("code", "kr"); ("name", "South Korea")])].

(** The query of [execute_protocol]: the registry lookup and the template's
    [format] call. *)
Definition build_query (registry : PyDict (PyDict string))
    (protocol_name : string) (country : PyDict string) : PyResult string :=
  protocol <- dict_item registry protocol_name ;;
  template <- dict_item protocol "query_template" ;;
  str_format template
    [("country_code", dict_get country "code" "");
     ("country_name", dict_get country "name" "")].

(** [HunterAgentV2.execute_protocol]; [registry] is [OSINT_PROTOCOLS]. *)
Definition execute_protocol {X : Type} (registry : PyDict (PyDict string))
    (search : SearchFn X) (protocol_name : string) (country : PyDict string)
  : Action X (PyDict string) :=
  query <~ lift (build_query registry protocol_name country) ;;
  country_name <~ lift (dict_item country "name") ;;
  _ <~ logging "osint_search_starting" ;;
  try_except
    (result <~ call_search search query ;;
     _ <~ logging "osint_search_complete" ;;
     ret [("protocol", protocol_name);
          ("country", country_name);
          ("query", query);
          ("raw_result", result)])
    (fun e =>
       _ <~ logging "osint_search_failed" ;;
       ret [("protocol", protocol_name);
            ("country", country_name);
            ("query", query);
            ("error", str_exc e)]).

(** The inner loop of [search_all_countries]. *)
Fixpoint for_protocols {X : Type} (registry : PyDict (PyDict string))
    (search : SearchFn X) (country_info : PyDict string)
    (protocol_names : list string) (all_results : list (PyDict string))
  : Action X (list (PyDict string)) :=
  match protocol_names with
  | [] => ret all_results
  | protocol_name :: rest =>
      result <~ execute_protocol registry search protocol_name country_info ;;
      _ <~ sleeping 2 ;;
      for_protocols registry search country_info rest (all_results ++ [result])
  end.

(** The outer loop of [search_all_countries]. *)
Fixpoint for_countries {X : Type} (registry : PyDict (PyDict string))
    (search : SearchFn X) (countries : PyDict (PyDict string))
    (all_results : list (PyDict string))
  : Action X (list (PyDict string)) :=
  match countries with
  | [] => ret all_results
  | (country_name, country_info) :: rest =>
      _ <~ logging "country_search_starting" ;;
      all_results' <~ for_protocols registry search country_info
                        (dict_keys registry) all_results ;;
      _ <~ logging "country_search_complete" ;;
      for_countries registry search rest all_results'
  end.

(** [search_all_countries] over given tables. *)
Definition sweep {X : Type} (countries registry : PyDict (PyDict string))
    (search : SearchFn X) : Action X (list (PyDict string)) :=
  for_countries registry search countries [].

(** [HunterAgentV2.search_all_countries] *)
Definition search_all_countries {X : Type} (search : SearchFn X)
  : Action X (list (PyDict string)) :=
  sweep APPROVED_COUNTRIES OSINT_PROTOCOLS search.

(** The prompt [parse_results_to_leads] builds for one search result. *)
Definition lead_prompt (result : PyDict string) : PyResult string :=
  protocol <- dict_item result "protocol" ;;
  country <- dict_item result "country" ;;
  raw_result <- dict_item result "raw_result" ;;
  Ok ("Extract lead information from this search result." ++ nl
      ++ nl
      ++ "Protocol: " ++ protocol ++ nl
      ++ "Country: " ++ country ++ nl
      ++ "Search Result: " ++ raw_result ++ nl
      ++ nl
      ++ "Extract:" ++ nl
      ++ "1. Company name" ++ nl
      ++ "2. Website URL (must exist)" ++ nl
      ++ "3. Decision maker name and title (if available)" ++ nl
      ++ "4. Relevance score/reason (why this is a good lead)" ++ nl
      ++ nl
      ++ "Return as JSON with keys: company_name, website, decision_maker_name, decision_maker_title, relevance_score" ++ nl
      ++ "If you can't extract clean data, return {" ++ quoted "skip"
      ++ ": true}" ++ nl).

(** The loop of [parse_results_to_leads].  The database session opened
    around it is never written to and is left out. *)
Fixpoint parse_loop {X : Type} (generate_text : Service X)
    (search_results : list (PyDict string)) (leads_created : list string)
  : Action X (list string) :=
  match search_results with
  | [] => ret leads_created
  | result :: rest =>
      if dict_contains result "error" then
        parse_loop generate_text rest leads_created
      else
        _ <~ try_except
               (prompt <~ lift (lead_prompt result) ;;
                extracted <~ call_gemini generate_text prompt ;;
                logging "lead_extracted")
               (fun e => logging "lead_extraction_failed") ;;
        parse_loop generate_text rest leads_created
  end.

(** [HunterAgentV2.parse_results_to_leads] *)
Definition parse_results_to_leads {X : Type} (generate_text : Service X)
    (search_results : list (PyDict string)) (campaign_id : string)
  : Action X (list string) :=
  parse_loop generate_text search_results [].

(** ** scripts/hunter_v2_live.py: the extractor *)

(** [\s] on [str]: the characters below 256 for which [str.isspace] holds. *)
Definition is_space (c : ascii) : bool :=
  let n := nat_of_ascii c in
  ((9 <=? n)%nat && (n <=? 13)%nat) || ((28 <=? n)%nat && (n <=? 32)%nat)
  || (n =? 133)%nat || (n =? 160)%nat.

(** The characters the class of [url_pattern] excludes besides [\s]. *)
Definition url_delimiters : list ascii :=
  list_ascii_of_string ("<>" ++ dquote ++ "{}|\^`[]").

Definition url_char (c : ascii) : bool :=
  negb (is_space c || existsb (Ascii.eqb c) url_delimiters).

Fixpoint take_while (f : ascii -> bool) (s : string) : string :=
  match s with
  | "" => ""
  | String c s' => if f c then String c (take_while f s') else ""
  end.

(** A match of [url_pattern] that begins with [scheme] at the head of [s]. *)
Definition match_scheme (scheme s : string) : option string :=
  if String.prefix scheme s then
    match take_while url_char (str_drop (String.length scheme) s) with
    | "" => None
    | run => Some (scheme ++ run)
    end
  else None.

(** The match of [url_pattern] at the head of [s], if there is one. *)
Definition match_url (s : string) : option string :=
  match match_scheme "https://" s with
  | Some u => Some u
  | None => match_scheme "http://" s
  end.

(** [re.findall(url_pattern, s)]: matches are taken left to right and do not
    overlap; [skip] counts the characters of the last match still ahead. *)
Fixpoint findall_from (skip : nat) (s : string) : list string :=
  match s with
  | "" => []
  | String c s' =>
      match skip with
      | S k => findall_from k s'
      | O =>
          match match_url s with
          | Some u => u :: findall_from (String.length u - 1) s'
          | None => findall_from 0 s'
          end
      end
  end.

(** [extract_urls_from_text] *)
Definition extract_urls_from_text (text : string) : list string :=
  findall_from 0 text.

(** [extract_company_info] *)
Definition extract_company_info (text country : string)
  : PyResult (PyDict string) :=
  let info := [("country", country);
               ("company_name", "Unknown");
               ("website", "");
               ("decision_maker", "");
               ("relevance_score", "");
               ("raw_snippet", str_take 300 text)] in
  match extract_urls_from_text text with
  | [] => Ok info
  | url0 :: _ =>
      let info := dict_set info "website" url0 in
      authority <- list_item (str_split "/" url0) 2 ;;
      label <- list_item (str_split "." (str_replace "www." "" authority)) 0 ;;
      Ok (dict_set info "company_name" (str_title label))
  end.

(** The derivation of the company name in the words of the specification:
    the host label with a leading [www.] stripped, up to its first dot, in
    title case. *)
Definition strip_leading_www (host : string) : string :=
  if String.prefix "www." host then str_drop 4 host else host.

Definition company_name_of_host (host : string) : string :=
  str_title (hd "" (str_split "." (strip_leading_www host))).

(** ** Predicates and reference functions of the statements *)

(** [0 <= tokens <= capacity] *)
Definition bucket_ok (b : TokenBucket) : Prop :=
  0 <= tokens b /\ tokens b <= inject_Z (capacity b).

(** An operation that asks for no more than the bucket can ever hold. *)
Definition op_within (c : Z) (op : BucketOp) : Prop :=
  match op with
  | OpConsume n => (0 <= n <= c)%Z
  | _ => True
  end.

(** The refill a bucket has after [elapsed] seconds, capped at capacity. *)
Definition refilled (b : TokenBucket) (elapsed : Q) : Q :=
  Qmin (inject_Z (capacity b)) (tokens b + elapsed * refill_rate b).

Definition is_sleep (e : Event) : bool :=
  match e with
  | EvSleep _ => true
  | _ => false
  end.

Definition positive_rates (l : RateLimiter) : Prop :=
  0 < refill_rate (daily_bucket l) /\ 0 < refill_rate (hourly_bucket l).

(** The outcomes of calling a service on [queries], in order. *)
Fixpoint service_run {X : Type} (f : Service X) (queries : list string)
    (x : X) : list Outcome * X :=
  match queries with
  | [] => ([], x)
  | q :: qs =>
      let (x1, o) := f q x in
      let (os, x2) := service_run f qs x1 in
      (o :: os, x2)
  end.

(** One (entity, protocol) pair of a sweep, with its query. *)
Record Job : Type := mkJob {
  job_protocol : string;
  job_country : string;
  job_query : string
}.

Definition job_of (registry : PyDict (PyDict string))
    (country_info : PyDict string) (protocol_name : string) : option Job :=
  match build_query registry protocol_name country_info,
        dict_lookup country_info "name" with
  | Ok q, Some country_name => Some (mkJob protocol_name country_name q)
  | _, _ => None
  end.

Definition option_list {A : Type} (o : option A) : list A :=
  match o with
  | Some a => [a]
  | None => []
  end.

Definition jobs_of_country (registry : PyDict (PyDict string))
    (protocol_names : list string) (country_info : PyDict string) : list Job :=
  flat_map (fun pn => option_list (job_of registry country_info pn))
           protocol_names.

(** The pairs of a sweep: entities outside, protocols inside. *)
Definition plan (countries registry : PyDict (PyDict string)) : list Job :=
  flat_map (fun c => jobs_of_country registry (dict_keys registry) (snd c))
           countries.

(** Every pair of the tables has a query and every entity a name. *)
Definition country_ok (registry : PyDict (PyDict string))
    (protocol_names : list string) (country_info : PyDict string) : bool :=
  forallb (fun pn => match job_of registry country_info pn with
                     | Some _ => true
                     | None => false
                     end) protocol_names.

Definition tables_ok (countries registry : PyDict (PyDict string)) : bool :=
  forallb (fun c => country_ok registry (dict_keys registry) (snd c)) countries.

(** The dictionary [execute_protocol] returns for a pair and an outcome. *)
Definition wrap (j : Job) (o : Outcome) : PyDict string :=
  match o with
  | Returns text =>
      [("protocol", job_protocol j); ("country", job_country j);
       ("query", job_query j); ("raw_result", text)]
  | Raises message =>
      [("protocol", job_protocol j); ("country", job_country j);
       ("query", job_query j); ("error", message)]
  end.

Definition wrap_all (jobs : list Job) (outs : list Outcome)
  : list (PyDict string) :=
  map (fun jo => wrap (fst jo) (snd jo)) (combine jobs outs).

(** The (entity, protocol) pair a result is for. *)
Definition pair_of (r : PyDict string) : string * string :=
  (dict_get r "country" "", dict_get r "protocol" "").

Definition is_acquire (e : Event) : bool :=
  match e with
  | EvLog event => String.eqb event "rate_limit_acquired"
  | _ => false
  end.

Definition is_search (e : Event) : bool :=
  match e with
  | EvSearch _ => true
  | _ => false
  end.

(** scripts/test_hunter_v2.py: [mock_search] *)
Definition mock_search : SearchFn unit :=
  fun query x =>
    (x, Ordinary
          (Returns ("Search results for: " ++ query ++ nl ++ nl
                    ++ "[This would contain actual Google search results]"))).

(** A process at start-up: the limiter is built when its module is loaded. *)
Definition start {X : Type} (st : Settings) (x : X) : Process X :=
  let w := mkWorld 0 [] [] in
  mkProcess w (RateLimiter_init st w) x.

(** A URL found by [url_pattern] begins with its scheme and two slashes. *)
Definition has_scheme (u : string) : Prop :=
  exists rest, u = "https://" ++ rest \/ u = "http://" ++ rest.

(** ** Further code of the cited modules and of their callers *)

(** Consecutive [acquire] calls of one caller, as the scraper makes them:
    one per region of the list. *)
Fixpoint acquire_each (st : Settings) (regions : list string)
    (l : RateLimiter) (w : World) : PyResult (RateLimiter * World) :=
  match regions with
  | [] => Ok (l, w)
  | region :: rest =>
      '(l1, w1) <- acquire st region l w ;; acquire_each st rest l1 w1
  end.

(** The minimum delays of the regions of a list, added up. *)
Definition total_min_delay (st : Settings) (l : RateLimiter)
    (regions : list string) : Z :=
  fold_right (fun region acc => (min_delay_of st l region + acc)%Z) 0%Z regions.

(** [s.lstrip()], [s.rstrip()] and [s.strip()] *)
Fixpoint str_lstrip (s : string) : string :=
  match s with
  | "" => ""
  | String c s' => if is_space c then str_lstrip s' else s
  end.

Fixpoint str_rstrip (s : string) : string :=
  match s with
  | "" => ""
  | String c s' =>
      match str_rstrip s' with
      | "" => if is_space c then "" else String c ""
      | r => String c r
      end
  end.

Definition str_strip (s : string) : string := str_rstrip (str_lstrip s).

(** src/config.py: the default of [Settings.target_regions] and the
    property [target_regions_list]. *)
Definition default_target_regions : string :=
  "Poland,Czech Republic,Romania,Japan,South Korea,Singapore,Hong Kong".

Definition target_regions_list (target_regions : string) : list string :=
  map str_strip (str_split "," target_regions).

Fixpoint count_char (c : ascii) (s : string) : nat :=
  match s with
  | "" => 0
  | String c' s' => (if Ascii.eqb c' c then 1 else 0) + count_char c s'
  end.

Fixpoint str_forallb (f : ascii -> bool) (s : string) : bool :=
  match s with
  | "" => true
  | String c s' => f c && str_forallb f s'
  end.

Fixpoint str_filter (f : ascii -> bool) (s : string) : string :=
  match s with
  | "" => ""
  | String c s' => if f c then String c (str_filter f s') else str_filter f s'
  end.

(** scripts/hunter_v2_live.py: the query built in the loop of [main]. *)
Definition live_query (protocol_info country_info : PyDict string)
  : PyResult string :=
  template <- dict_item protocol_info "query_template" ;;
  country_code <- dict_item country_info "code" ;;
  country_name <- dict_item country_info "name" ;;
  str_format template
    [("country_code", country_code); ("country_name", country_name)].

(** The two log lines [parse_results_to_leads] ends a result with. *)
Definition is_lead_log (e : Event) : bool :=
  match e with
  | EvLog event =>
      String.eqb event "lead_extracted"
      || String.eqb event "lead_extraction_failed"
  | _ => false
  end.

Definition is_raise (o : Outcome) : bool :=
  match o with
  | Raises _ => true
  | Returns _ => false
  end.

(** ** src/utils/validators.py *)

(** [\d] on [str], for the characters below 256. *)
Definition is_digit (c : ascii) : bool :=
  let n := nat_of_ascii c in (48 <=? n)%nat && (n <=? 57)%nat.

Definition phone_char (c : ascii) : bool := is_digit c || Ascii.eqb c "+".

(** [sanitize_phone]: every character outside [\d+] is replaced by nothing. *)
Definition sanitize_phone (phone : string) : string :=
  str_filter phone_char phone.

(** [s.lower()] *)
Fixpoint str_lower (s : string) : string :=
  match s with
  | "" => ""
  | String c s' => String (to_lower c) (str_lower s')
  end.

(** [s.split()]: the pieces between runs of whitespace, none of them empty. *)
Fixpoint str_split_ws (s : string) : list string :=
  match s with
  | "" => []
  | String c s' =>
      if is_space c then str_split_ws s'
      else
        match s' with
        | "" => [String c ""]
        | String c' _ =>
            if is_space c' then String c "" :: str_split_ws s'
            else match str_split_ws s' with
                 | h :: t => String c h :: t
                 | [] => [String c ""]
                 end
        end
  end.

(** [s[i]] on a string *)
Definition str_item (s : string) (i : nat) : PyResult string :=
  match String.get i s with
  | Some c => Ok (String c "")
  | None => Raise (IndexError "string index out of range")
  end.

(** [l[-1]] *)
Definition list_last_item {A : Type} (l : list A) : PyResult A :=
  list_item l (List.length l - 1).

(** [infer_email_pattern] *)
Definition infer_email_pattern (domain name : string)
  : PyResult (list string) :=
  let patterns := ["info@" ++ domain; "contact@" ++ domain] in
  if String.eqb name "" then Ok patterns
  else
    let name_parts := str_split_ws (str_lower name) in
    if (2 <=? List.length name_parts)%nat then
      first <- list_item name_parts 0 ;;
      last <- list_last_item name_parts ;;
      first0 <- str_item first 0 ;;
      last0 <- str_item last 0 ;;
      Ok (List.app patterns
            [first ++ "." ++ last ++ "@" ++ domain;
             first ++ "_" ++ last ++ "@" ++ domain;
             first ++ last ++ "@" ++ domain;
             first0 ++ last ++ "@" ++ domain;
             first ++ "." ++ last0 ++ "@" ++ domain])
    else Ok patterns.

(** [re.search] for a pattern given by its matcher at the head of a string. *)
Fixpoint re_search (match_here : string -> bool) (s : string) : bool :=
  match_here s ||
  match s with
  | "" => false
  | String _ s' => re_search match_here s'
  end.

(** The pattern of [validate_linkedin_url] at the head of [s]. *)
Definition linkedin_path (s : string) : bool :=
  String.prefix "linkedin.com/in/" s || String.prefix "linkedin.com/company/" s.

(** [validate_linkedin_url] *)
Definition validate_linkedin_url (url : string) : bool :=
  re_search linkedin_path url.

(** ** Searches that are, or are not, interrupted *)

Definition interrupted (o : SearchOutcome) : bool :=
  match o with
  | Interrupted _ => true
  | Ordinary _ => false
  end.

(** Every call of the search function returns or raises an [Exception]. *)
Definition never_interrupted {X : Type} (search : SearchFn X) : Prop :=
  forall (query : string) (x : X), interrupted (snd (search query x)) = false.

(** The call raised an [Exception]. *)
Definition search_raises (o : SearchOutcome) : bool :=
  match o with
  | Ordinary (Raises _) => true
  | _ => false
  end.

(** The outcomes of calling the search function on [queries], in order, up
    to the first call that is interrupted. *)
Fixpoint search_run {X : Type} (search : SearchFn X) (queries : list string)
    (x : X) : list SearchOutcome * X :=
  match queries with
  | [] => ([], x)
  | q :: qs =>
      let (x1, o) := search q x in
      if interrupted o then ([o], x1)
      else let (os, x2) := search_run search qs x1 in (o :: os, x2)
  end.

(** A search function seen as a service; the two agree on every search
    function that is never interrupted, the only ones this is used for. *)
Definition as_service {X : Type} (search : SearchFn X) : Service X :=
  fun query x =>
    let (x', o) := search query x in
    (x', match o with
         | Ordinary o' => o'
         | Interrupted name => Raises name
         end).

(** [p] occurs in [s]. *)
Definition occurs (p s : string) : bool := re_search (String.prefix p) s.

(** * Theorems *)

(** ** The world *)

Lemma lags_ok_head (w : World) : lags_ok w -> 0 <= hd 0 (lags w).
Proof.
  unfold lags_ok. destruct (lags w) as [|l ls]; simpl; intro H.
  - lra.
  - inversion H; assumption.
Qed.

Lemma lags_ok_sleep (d : Q) (w : World) : lags_ok w -> lags_ok (sleep d w).
Proof.
  unfold lags_ok. simpl. destruct (lags w) as [|l ls]; simpl; intro H.
  - constructor.
  - inversion H; assumption.
Qed.

Lemma lags_ok_log (ev : string) (w : World) : lags_ok w -> lags_ok (log ev w).
Proof. unfold lags_ok; simpl; auto. Qed.

Lemma sleep_at_least (d : Q) (w : World) :
  lags_ok w -> now w + d <= now (sleep d w) /\ now w <= now (sleep d w).
Proof.
  intro H. apply lags_ok_head in H. simpl.
  destruct (Q.max_spec 0 d) as [[L E]|[L E]]; rewrite E; split; lra.
Qed.

Lemma Qlt_bool_iff (x y : Q) : Qlt_bool x y = true <-> x < y.
Proof.
  unfold Qlt_bool. rewrite negb_true_iff.
  split; intro H.
  - apply Qnot_le_lt. intro L. apply Qle_bool_iff in L. congruence.
  - destruct (Qle_bool y x) eqn:E; [|reflexivity].
    apply Qle_bool_iff in E. lra.
Qed.

Lemma Qle_bool_false (x y : Q) : Qle_bool x y = false <-> y < x.
Proof.
  split; intro H.
  - apply Qnot_le_lt. intro L. apply Qle_bool_iff in L. congruence.
  - destruct (Qle_bool x y) eqn:E; [|reflexivity].
    apply Qle_bool_iff in E. lra.
Qed.

(** ** TokenBucket *)

Lemma refill_tokens (b : TokenBucket) (w : World) :
  tokens (refill b w) = refilled b (now w - last_refill b).
Proof. reflexivity. Qed.

Lemma refilled_le_capacity (b : TokenBucket) (e : Q) :
  refilled b e <= inject_Z (capacity b).
Proof. unfold refilled. apply Q.le_min_l. Qed.

Lemma refilled_cases (b : TokenBucket) (e : Q) :
  (inject_Z (capacity b) < tokens b + e * refill_rate b /\
   refilled b e == inject_Z (capacity b)) \/
  (tokens b + e * refill_rate b <= inject_Z (capacity b) /\
   refilled b e == tokens b + e * refill_rate b).
Proof. unfold refilled. apply Q.min_spec. Qed.

(** Two refills in a row amount to one over the whole interval. *)
Lemma refill_twice (b : TokenBucket) (w1 w2 : World) :
  0 <= refill_rate b -> now w1 <= now w2 ->
  tokens (refill (refill b w1) w2) == refilled b (now w2 - last_refill b).
Proof.
  intros Hr Ht.
  rewrite refill_tokens.
  assert (G : 0 <= (now w2 - now w1) * refill_rate b)
    by (apply Qmult_le_0_compat; lra).
  unfold refilled at 1. simpl. unfold utcnow.
  fold (refilled b (now w1 - last_refill b)).
  set (c := inject_Z (capacity b)) in *.
  set (g := (now w2 - now w1) * refill_rate b) in *.
  assert (E : tokens b + (now w2 - last_refill b) * refill_rate b ==
              tokens b + (now w1 - last_refill b) * refill_rate b + g)
    by (unfold g; ring).
  destruct (refilled_cases b (now w1 - last_refill b)) as [[L1 E1]|[L1 E1]];
  destruct (refilled_cases b (now w2 - last_refill b)) as [[L2 E2]|[L2 E2]];
  fold c in L1, E1, L2, E2;
  destruct (Q.min_spec c (refilled b (now w1 - last_refill b) + g))
    as [[L3 E3]|[L3 E3]]; rewrite E3, ?E2; lra.
Qed.

(** The two branches of [consume]. *)
Lemma consume_fast (n : Z) (b : TokenBucket) (w : World) :
  inject_Z n <= tokens (refill b w) ->
  consume n b w = Ok (take n (refill b w), w).
Proof.
  intro H. unfold consume. apply Qle_bool_iff in H. rewrite H. reflexivity.
Qed.

Lemma consume_slow (n : Z) (b : TokenBucket) (w : World) :
  tokens (refill b w) < inject_Z n -> ~ refill_rate b == 0 ->
  consume n b w =
    let w2 := sleep ((inject_Z n - tokens (refill b w)) / refill_rate b)
                    (log "rate_limit_waiting" w) in
    Ok (take n (refill (refill b w) w2), w2).
Proof.
  intros H R. unfold consume. apply Qle_bool_false in H. rewrite H.
  destruct (Qeq_bool (refill_rate (refill b w)) 0) eqn:E.
  - apply Qeq_bool_iff in E. simpl in E. contradiction.
  - reflexivity.
Qed.

Lemma take_tokens (n : Z) (b : TokenBucket) :
  tokens (take n b) = tokens b - inject_Z n.
Proof. reflexivity. Qed.

Lemma wait_covers (need r t : Q) :
  0 < r -> need / r <= t -> need <= t * r.
Proof.
  intros Hr H.
  assert (E : need == need / r * r) by (field; lra).
  rewrite E. apply Qmult_le_compat_r; lra.
Qed.

(** What [consume] does, in one statement. *)
Lemma consume_spec (n : Z) (b : TokenBucket) (w : World) :
  0 < refill_rate b -> lags_ok w ->
  exists b' w',
    consume n b w = Ok (b', w') /\
    lags_ok w' /\ now w <= now w' /\
    capacity b' = capacity b /\ refill_rate b' = refill_rate b /\
    last_refill b' = now w' /\
    tokens b' == tokens (refill (refill b w) w') - inject_Z n /\
    ((n <= capacity b)%Z -> 0 <= tokens b') /\
    ((0 <= n)%Z -> tokens b' <= inject_Z (capacity b)) /\
    (inject_Z n <= tokens (refill b w) -> w' = w) /\
    (tokens (refill b w) < inject_Z n ->
       w' = sleep ((inject_Z n - tokens (refill b w)) / refill_rate b)
                  (log "rate_limit_waiting" w) /\
       now w + (inject_Z n - tokens (refill b w)) / refill_rate b <= now w').
Proof.
  intros Hr Hl.
  destruct (Qlt_le_dec (tokens (refill b w)) (inject_Z n)) as [Lt|Le].
  - (* not enough tokens: wait, refill, take *)
    set (wait := (inject_Z n - tokens (refill b w)) / refill_rate b).
    set (w2 := sleep wait (log "rate_limit_waiting" w)).
    assert (Hl1 : lags_ok (log "rate_limit_waiting" w))
      by (apply lags_ok_log; exact Hl).
    destruct (sleep_at_least wait _ Hl1) as [T1 T2]. fold w2 in T1, T2.
    change (now (log "rate_limit_waiting" w)) with (now w) in T1, T2.
    assert (Cover : inject_Z n - tokens (refill b w)
                    <= (now w2 - now w) * refill_rate b)
      by (apply wait_covers; [exact Hr | unfold wait in T1; lra]).
    exists (take n (refill (refill b w) w2)), w2.
    rewrite consume_slow by (assumption || lra).
    fold wait. fold w2. rewrite take_tokens.
    assert (Tok : tokens (refill (refill b w) w2) ==
                  Qmin (inject_Z (capacity b))
                       (tokens (refill b w) + (now w2 - now w) * refill_rate b))
      by reflexivity.
    destruct (Q.min_spec (inject_Z (capacity b))
                (tokens (refill b w) + (now w2 - now w) * refill_rate b))
      as [[L E]|[L E]]; rewrite E in Tok; clear E;
    set (t2 := tokens (refill (refill b w) w2)) in *;
    (split; [reflexivity|]);
    (split; [apply lags_ok_sleep; exact Hl1|]);
    (split; [exact T2|]);
    (split; [reflexivity|]); (split; [reflexivity|]); (split; [reflexivity|]);
    (split; [reflexivity|]);
    (split; [intro Hn; rewrite Zle_Qle in Hn; lra|]);
    (split; [intro Hn; rewrite Zle_Qle in Hn; change (inject_Z 0) with 0 in Hn; lra|]);
    (split; [intro Le; lra|]);
    intros _; (split; [reflexivity|exact T1]).
  - (* enough tokens *)
    exists (take n (refill b w)), w.
    rewrite consume_fast by exact Le. rewrite take_tokens.
    assert (Cap : tokens (refill b w) <= inject_Z (capacity b))
      by (rewrite refill_tokens; apply refilled_le_capacity).
    assert (Same : tokens (refill (refill b w) w) == tokens (refill b w)).
    { change (tokens (refill (refill b w) w)) with
        (Qmin (inject_Z (capacity b))
              (tokens (refill b w) + (now w - now w) * refill_rate b)).
      assert (Z0 : (now w - now w) * refill_rate b == 0) by ring.
      destruct (Q.min_spec (inject_Z (capacity b))
                  (tokens (refill b w) + (now w - now w) * refill_rate b))
        as [[L E]|[L E]]; rewrite E; lra. }
    set (t1 := tokens (refill b w)) in *.
    set (t2 := tokens (refill (refill b w) w)) in *.
    split; [reflexivity|]. split; [exact Hl|]. split; [lra|].
    split; [reflexivity|]. split; [reflexivity|]. split; [reflexivity|].
    split; [lra|].
    split; [intros _; lra|].
    split; [intro Hn; rewrite Zle_Qle in Hn; change (inject_Z 0) with 0 in Hn; lra|].
    split; [reflexivity|].
    intro Lt; lra.
Qed.

(** C2 (as amended): with a positive refill rate and a request that fits the
    bucket, [consume n] always returns with [n] tokens taken: at once when
    the refilled bucket holds [n] tokens, otherwise after logging and
    sleeping [(n - tokens) / refill_rate] seconds and refilling again.  The
    token count is not negative afterwards, and a bucket that holds no token
    after the opening refill makes the caller wait at least
    [n / refill_rate] seconds. *)
Theorem consume_delivers (n : Z) (b : TokenBucket) (w : World) :
  0 < refill_rate b -> lags_ok w -> (n <= capacity b)%Z ->
  exists b' w',
    consume n b w = Ok (b', w') /\
    (inject_Z n <= tokens (refill b w) ->
       w' = w /\ b' = take n (refill b w)) /\
    (tokens (refill b w) < inject_Z n ->
       w' = sleep ((inject_Z n - tokens (refill b w)) / refill_rate b)
                  (log "rate_limit_waiting" w) /\
       b' = take n (refill (refill b w) w')) /\
    0 <= tokens b' /\
    (tokens (refill b w) == 0 -> now w + inject_Z n / refill_rate b <= now w').
Proof.
  intros Hr Hl Hn.
  destruct (consume_spec n b w Hr Hl)
    as (b' & w' & Run & _ & Mono & _ & _ & _ & _ & Pos & _ & Fast & Slow).
  exists b', w'. split; [exact Run|].
  split; [|split; [|split]].
  - intro Le. rewrite consume_fast in Run by exact Le.
    inversion Run; subst. split; reflexivity.
  - intro Lt. rewrite consume_slow in Run by (assumption || lra).
    cbv zeta in Run. inversion Run; subst. split; reflexivity.
  - apply Pos; exact Hn.
  - intro Zero.
    destruct (Qlt_le_dec (tokens (refill b w)) (inject_Z n)) as [Lt|Le].
    + destruct (Slow Lt) as [_ T].
      assert (E : (inject_Z n - tokens (refill b w)) / refill_rate b
                  == inject_Z n / refill_rate b)
        by (rewrite Zero; field; lra).
      rewrite E in T. exact T.
    + rewrite (Fast Le).
      assert (inject_Z n / refill_rate b <= 0)
        by (apply Qle_shift_div_r; [exact Hr | lra]).
      lra.
Qed.

(** One request on an hourly bucket of the defaults that holds no token. *)
Lemma consume_delivers_witness :
  exists b' w',
    consume 1 (mkBucket 10 0 0 (10 # 3600)) (mkWorld 0 [] []) = Ok (b', w') /\
    0 <= tokens b' /\ 0 + 1 / (10 # 3600) <= now w'.
Proof.
  destruct (consume_delivers 1 (mkBucket 10 0 0 (10 # 3600)) (mkWorld 0 [] []))
    as (b' & w' & Run & _ & _ & Pos & Wait).
  - reflexivity.
  - constructor.
  - simpl; lia.
  - exists b', w'. split; [exact Run|]. split; [exact Pos|].
    apply Wait. reflexivity.
Defined.

(** C2 as stated fails: asking for more than the capacity leaves a negative
    token count, and a bucket whose zero count is stale returns at once. *)
Lemma consume_beyond_capacity_negative :
  (exists b' w',
     consume 2 (mkBucket 1 0 0 1) (mkWorld 0 [] []) = Ok (b', w') /\
     0 < refill_rate (mkBucket 1 0 0 1) /\
     tokens (mkBucket 1 0 0 1) == 0 /\
     ~ 0 <= tokens b') /\
  (exists b' w',
     consume 3 (mkBucket 5 0 0 1) (mkWorld 10 [] []) = Ok (b', w') /\
     tokens (mkBucket 5 0 0 1) == 0 /\
     ~ now (mkWorld 10 [] []) + 3 / 1 <= now w').
Proof.
  split; eexists; eexists.
  - split; [vm_compute; reflexivity|].
    split; [reflexivity|]. split; [reflexivity|].
    vm_compute. intro H; apply H; reflexivity.
  - split; [vm_compute; reflexivity|].
    split; [reflexivity|].
    vm_compute. intro H; apply H; reflexivity.
Qed.

(** The invariant of a bucket driven by its caller. *)
Lemma run_ops_invariant (ops : list BucketOp) :
  forall (b : TokenBucket) (w : World),
    0 < refill_rate b -> lags_ok w -> last_refill b <= now w -> bucket_ok b ->
    Forall (op_within (capacity b)) ops ->
    exists b' w',
      run_ops ops b w = Ok (b', w') /\ bucket_ok b' /\
      capacity b' = capacity b /\
      last_refill b <= last_refill b' /\ last_refill b' <= now w'.
Proof.
  induction ops as [|op ops IH]; intros b w Hr Hl Hp [Lo Hi] Hops.
  - exists b, w. simpl. repeat split; try assumption; lra.
  - inversion Hops as [|? ? Hop Hrest]; subst.
    destruct op as [|n|d]; simpl.
    + (* refill *)
      assert (G : 0 <= (now w - last_refill b) * refill_rate b)
        by (apply Qmult_le_0_compat; lra).
      assert (Ok' : bucket_ok (refill b w)).
      { unfold bucket_ok. rewrite refill_tokens.
        split; [|exact (refilled_le_capacity b _)].
        destruct (refilled_cases b (now w - last_refill b)) as [[L E]|[L E]];
          rewrite E; lra. }
      destruct (IH (refill b w) w Hr Hl (Qle_refl _) Ok' Hrest)
        as (b' & w' & Run & Inv & Cap & P1 & P2).
      exists b', w'. repeat split; try assumption; try apply Inv.
      simpl in P1. unfold utcnow in P1. lra.
    + (* consume *)
      destruct (consume_spec n b w Hr Hl)
        as (b1 & w1 & Run1 & Hl1 & Mono & Cap1 & Rate1 & Last1 & _ & Pos
            & Top & _ & _).
      rewrite Run1. simpl.
      simpl in Hop.
      assert (Ok1 : bucket_ok b1).
      { split; [apply Pos; lia | rewrite Cap1; apply Top; lia]. }
      assert (Hr1 : 0 < refill_rate b1) by (rewrite Rate1; exact Hr).
      assert (Hp1 : last_refill b1 <= now w1) by (rewrite Last1; lra).
      rewrite <- Cap1 in Hrest.
      destruct (IH b1 w1 Hr1 Hl1 Hp1 Ok1 Hrest)
        as (b' & w' & Run & Inv & Cap & P1 & P2).
      exists b', w'. repeat split; try assumption; try apply Inv.
      * congruence.
      * rewrite Last1 in P1. lra.
    + (* the caller sleeps *)
      destruct (sleep_at_least d w Hl) as [_ T].
      assert (Hp1 : last_refill b <= now (sleep d w)) by lra.
      destruct (IH b (sleep d w) Hr (lags_ok_sleep d w Hl) Hp1 (conj Lo Hi) Hrest)
        as (b' & w' & Run & Inv & Cap & P1 & P2).
      exists b', w'. repeat split; try assumption; apply Inv.
Qed.

Lemma Forall_firstn_of {A : Type} (P : A -> Prop) (k : nat) (l : list A) :
  Forall P l -> Forall P (firstn k l).
Proof.
  intro H. rewrite <- (firstn_skipn k l) in H.
  apply Forall_app in H. apply H.
Qed.

(** C3 (as amended): under a positive refill rate, a clock that does not run
    backwards and requests between 0 and the capacity, [0 <= tokens <=
    capacity] holds after every step of every sequence of refills, consumes
    and sleeps; each refill sets the tokens to the capped sum and moves
    [last_refill] to the present, never backwards. *)
Theorem bucket_invariant (ops : list BucketOp) (b : TokenBucket) (w : World) :
  0 < refill_rate b -> lags_ok w -> last_refill b <= now w -> bucket_ok b ->
  Forall (op_within (capacity b)) ops ->
  (forall k : nat,
     exists b' w',
       run_ops (firstn k ops) b w = Ok (b', w') /\ bucket_ok b' /\
       last_refill b <= last_refill b') /\
  (forall (b0 : TokenBucket) (w0 : World),
     tokens (refill b0 w0) ==
       Qmin (inject_Z (capacity b0))
            (tokens b0 + (now w0 - last_refill b0) * refill_rate b0) /\
     tokens (refill b0 w0) <= inject_Z (capacity b0) /\
     last_refill (refill b0 w0) == now w0).
Proof.
  intros Hr Hl Hp Hb Hops. split.
  - intro k.
    destruct (run_ops_invariant (firstn k ops) b w Hr Hl Hp Hb
                (Forall_firstn_of _ k ops Hops))
      as (b' & w' & Run & Inv & _ & P1 & _).
    exists b', w'. auto.
  - intros b0 w0. split; [reflexivity|]. split; [|reflexivity].
    exact (refilled_le_capacity b0 _).
Qed.

(** The hourly bucket of the defaults through a request, a pause, a refill
    and a request for all it can hold. *)
Lemma bucket_invariant_witness :
  exists b' w',
    run_ops (firstn 4 [OpConsume 1; OpSleep 2; OpRefill; OpConsume 10])
            (TokenBucket_init 10 (10 # 3600) (mkWorld 0 [1 # 2] []))
            (mkWorld 0 [1 # 2] []) = Ok (b', w') /\
    bucket_ok b'.
Proof.
  destruct (bucket_invariant
              [OpConsume 1; OpSleep 2; OpRefill; OpConsume 10]
              (TokenBucket_init 10 (10 # 3600) (mkWorld 0 [1 # 2] []))
              (mkWorld 0 [1 # 2] [])) as [Steps _].
  - reflexivity.
  - repeat constructor. discriminate.
  - discriminate.
  - split; discriminate.
  - repeat constructor; simpl; lia.
  - destruct (Steps 4%nat) as (b' & w' & Run & Inv & _).
    exists b', w'. split; assumption.
Defined.

(** C3 as stated fails: the daily bucket of the defaults, asked for 41
    tokens, ends below zero; asked for -1, it ends above its capacity. *)
Lemma bucket_invariant_broken :
  bucket_ok (TokenBucket_init 40 (40 # 86400) (mkWorld 0 [] [])) /\
  (exists b' w',
     run_ops [OpConsume 41]
             (TokenBucket_init 40 (40 # 86400) (mkWorld 0 [] []))
             (mkWorld 0 [] []) = Ok (b', w') /\
     ~ 0 <= tokens b') /\
  (exists b' w',
     run_ops [OpConsume (-1)]
             (TokenBucket_init 40 (40 # 86400) (mkWorld 0 [] []))
             (mkWorld 0 [] []) = Ok (b', w') /\
     ~ tokens b' <= inject_Z (capacity b')).
Proof.
  split; [split; discriminate|].
  split; eexists; eexists; (split; [vm_compute; reflexivity|]);
    vm_compute; intro H; apply H; reflexivity.
Qed.

(** ** RateLimiter *)

Lemma wait_min_delay_spec (st : Settings) (region : string) (l : RateLimiter)
    (w : World) :
  lags_ok w ->
  let w1 := wait_min_delay st region l w in
  lags_ok w1 /\ now w <= now w1 /\
  last_request_time l + inject_Z (min_delay_of st l region) <= now w1 /\
  (inject_Z (min_delay_of st l region) <= now w - last_request_time l ->
   w1 = w).
Proof.
  intro Hl. unfold wait_min_delay, utcnow.
  destruct (Qlt_bool (now w - last_request_time l)
                     (inject_Z (min_delay_of st l region))) eqn:E; cbv zeta.
  - apply Qlt_bool_iff in E.
    assert (Hl1 : lags_ok (log "rate_limit_min_delay" w))
      by (apply lags_ok_log; exact Hl).
    destruct (sleep_at_least
                (inject_Z (min_delay_of st l region) - (now w - last_request_time l))
                _ Hl1) as [T1 T2].
    change (now (log "rate_limit_min_delay" w)) with (now w) in T1, T2.
    split; [apply lags_ok_sleep; exact Hl1|].
    split; [exact T2|]. split; [lra|]. intro; lra.
  - assert (L : inject_Z (min_delay_of st l region) <= now w - last_request_time l).
    { unfold Qlt_bool in E. apply negb_false_iff in E.
      apply Qle_bool_iff in E. exact E. }
    split; [exact Hl|]. split; [lra|]. split; [lra|]. reflexivity.
Qed.

(** [acquire] as the sequence of its three gates. *)
Lemma acquire_spec (st : Settings) (region : string) (l : RateLimiter)
    (w : World) :
  positive_rates l -> lags_ok w ->
  exists d h w2 w3,
    consume 1 (daily_bucket l) (wait_min_delay st region l w) = Ok (d, w2) /\
    consume 1 (hourly_bucket l) w2 = Ok (h, w3) /\
    acquire st region l w =
      Ok (mkLimiter d h (now w3) (region_delays l),
          log "rate_limit_acquired" w3) /\
    lags_ok w3 /\ now (wait_min_delay st region l w) <= now w2 /\
    now w2 <= now w3.
Proof.
  intros [Rd Rh] Hl.
  destruct (wait_min_delay_spec st region l w Hl) as (Hl1 & _).
  destruct (consume_spec 1 (daily_bucket l) _ Rd Hl1)
    as (d & w2 & Run2 & Hl2 & M2 & _).
  destruct (consume_spec 1 (hourly_bucket l) w2 Rh Hl2)
    as (h & w3 & Run3 & Hl3 & M3 & _).
  exists d, h, w2, w3.
  split; [exact Run2|]. split; [exact Run3|].
  split; [|auto].
  unfold acquire. rewrite Run2. simpl. rewrite Run3. reflexivity.
Qed.

(** What one [consume 1] leaves in a bucket, over the interval from its
    previous refill to its new one. *)
Lemma consume_one_unit (b : TokenBucket) (w : World) (b' : TokenBucket)
    (w' : World) :
  0 < refill_rate b -> lags_ok w -> consume 1 b w = Ok (b', w') ->
  tokens b' == refilled b (last_refill b' - last_refill b) - 1.
Proof.
  intros Hr Hl Run.
  destruct (consume_spec 1 b w Hr Hl)
    as (b1 & w1 & Run1 & _ & Mono & _ & _ & Last & Tok & _).
  rewrite Run in Run1. inversion Run1; subst b1 w1.
  rewrite Tok, Last.
  rewrite (refill_twice b w w') by lra. reflexivity.
Qed.

(** C4 (as amended): [acquire] passes its three gates in sequence.  When it
    returns, one unit has been taken from the daily and from the hourly
    budget, and at least the region's minimum delay has passed since the
    last request.  Once the minimum delay has passed, a limiter whose
    buckets both hold a token after refill admits the request at once; a
    daily bucket short of one token makes it wait for the missing fraction,
    whatever the hourly bucket holds. *)
Theorem acquire_gates (st : Settings) (region : string) (l : RateLimiter)
    (w : World) :
  positive_rates l -> lags_ok w ->
  exists l' w',
    acquire st region l w = Ok (l', w') /\
    tokens (daily_bucket l') ==
      refilled (daily_bucket l)
        (last_refill (daily_bucket l') - last_refill (daily_bucket l)) - 1 /\
    tokens (hourly_bucket l') ==
      refilled (hourly_bucket l)
        (last_refill (hourly_bucket l') - last_refill (hourly_bucket l)) - 1 /\
    last_request_time l + inject_Z (min_delay_of st l region) <= now w' /\
    last_request_time l' = now w' /\
    (inject_Z (min_delay_of st l region) <= now w - last_request_time l ->
     (1 <= tokens (refill (daily_bucket l) w) ->
      1 <= tokens (refill (hourly_bucket l) w) ->
      now w' = now w /\ trace w' = (trace w ++ [EvLog "rate_limit_acquired"])%list) /\
     (tokens (refill (daily_bucket l) w) < 1 ->
      now w + (1 - tokens (refill (daily_bucket l) w))
              / refill_rate (daily_bucket l) <= now w')).
Proof.
  intros Hr Hl.
  destruct (acquire_spec st region l w Hr Hl)
    as (d & h & w2 & w3 & Run2 & Run3 & Run & Hl3 & M2 & M3).
  destruct (wait_min_delay_spec st region l w Hl) as (Hl1 & M1 & Gap & Same).
  destruct Hr as [Rd Rh].
  assert (Hl2 : lags_ok w2).
  { destruct (consume_spec 1 (daily_bucket l) _ Rd Hl1)
      as (d' & w2' & R & L & _). rewrite Run2 in R. inversion R; subst.
    exact L. }
  eexists; eexists. split; [exact Run|].
  cbn [daily_bucket hourly_bucket last_request_time].
  change (now (log "rate_limit_acquired" w3)) with (now w3).
  split; [exact (consume_one_unit _ _ _ _ Rd Hl1 Run2)|].
  split; [exact (consume_one_unit _ _ _ _ Rh Hl2 Run3)|].
  split; [lra|]. split; [reflexivity|].
  intro Elapsed. rewrite (Same Elapsed) in Run2. split.
  - intros Hd Hh.
    rewrite consume_fast in Run2 by exact Hd. inversion Run2; subst d w2.
    rewrite consume_fast in Run3 by exact Hh. inversion Run3; subst h w3.
    split; reflexivity.
  - intro Short.
    destruct (consume_spec 1 (daily_bucket l) w Rd Hl)
      as (d' & w2' & R & _ & _ & _ & _ & _ & _ & _ & _ & _ & Slow).
    rewrite Run2 in R. inversion R; subst d' w2'.
    destruct (Slow Short) as [_ T].
    change (inject_Z 1) with 1 in T. lra.
Qed.

(** The limiter of the defaults, first request of a process that has been
    idle for a minute. *)
Lemma acquire_gates_witness :
  exists l' w',
    acquire settings "Far_East"
            (RateLimiter_init settings (mkWorld 0 [] []))
            (mkWorld 60 [] []) = Ok (l', w') /\
    tokens (daily_bucket l') == 39 /\ tokens (hourly_bucket l') == 9 /\
    now w' = 60.
Proof.
  destruct (acquire_gates settings "Far_East"
              (RateLimiter_init settings (mkWorld 0 [] []))
              (mkWorld 60 [] []))
    as (l' & w' & Run & Daily & Hourly & _ & _ & Free).
  - split; reflexivity.
  - constructor.
  - assert (Run' := Run). vm_compute in Run'. inversion Run'; subst l' w'.
    eexists; eexists. split; [exact Run|].
    split; [reflexivity|]. split; [reflexivity|]. reflexivity.
Defined.

(** C4 as stated fails: with one token left in the daily bucket and five in
    the hourly bucket, [acquire] returns without having slept at all. *)
Lemma acquire_last_daily_token_no_wait :
  let l := mkLimiter (mkBucket 40 1 100 (40 # 86400))
                     (mkBucket 10 5 100 (10 # 3600))
                     0 [("Eastern_Europe", 12%Z); ("Far_East", 15%Z)] in
  let w := mkWorld 100 [] [] in
  exists l' w',
    acquire settings "Far_East" l w = Ok (l', w') /\
    tokens (daily_bucket l) == 1 /\ tokens (hourly_bucket l) == 5 /\
    ~ now w < now w' /\
    existsb is_sleep (trace w') = false /\
    tokens (daily_bucket l') == 0 /\ tokens (hourly_bucket l') == 4.
Proof.
  cbv zeta. eexists; eexists.
  split; [vm_compute; reflexivity|].
  split; [reflexivity|]. split; [reflexivity|].
  split; [vm_compute; discriminate|].
  split; [reflexivity|]. split; reflexivity.
Qed.

(** [acquire] returns, and not before the minimum delay of its region has
    passed since the last request. *)
Lemma acquire_spacing (st : Settings) (region : string) (l : RateLimiter)
    (w : World) :
  positive_rates l -> lags_ok w ->
  exists l' w',
    acquire st region l w = Ok (l', w') /\
    last_request_time l + inject_Z (min_delay_of st l region) <= now w'.
Proof.
  intros Hr Hl.
  destruct (acquire_spec st region l w Hr Hl)
    as (d & h & w2 & w3 & _ & _ & Run & _ & M2 & M3).
  destruct (wait_min_delay_spec st region l w Hl) as (_ & _ & Gap & _).
  eexists; eexists. split; [exact Run|].
  change (now (log "rate_limit_acquired" w3)) with (now w3). lra.
Qed.

(** C5: the second of two consecutive [acquire] calls returns no earlier
    than the minimum delay of its region after the first call, counted from
    the first call's invocation and even from its return; the delay is the
    region's entry in the table ([Far_East]: 15, [Eastern_Europe]: 12), and
    [linkedin_min_delay_seconds] (10 by default) for any other region. *)
Theorem min_delay_enforced (st : Settings) (region1 region : string)
    (l l1 : RateLimiter) (w0 w1 w1' : World) :
  positive_rates l -> lags_ok w0 -> lags_ok w1' ->
  acquire st region1 l w0 = Ok (l1, w1) -> now w1 <= now w1' ->
  (exists l2 w2,
     acquire st region l1 w1' = Ok (l2, w2) /\
     now w1 + inject_Z (min_delay_of st l region) <= now w2 /\
     now w0 + inject_Z (min_delay_of st l region) <= now w2) /\
  (forall (st' : Settings) (w : World),
     min_delay_of st' (RateLimiter_init st' w) "Far_East" = 15%Z /\
     min_delay_of st' (RateLimiter_init st' w) "Eastern_Europe" = 12%Z /\
     forall r : string,
       r <> "Eastern_Europe" -> r <> "Far_East" ->
       min_delay_of st' (RateLimiter_init st' w) r
       = linkedin_min_delay_seconds st') /\
  linkedin_min_delay_seconds settings = 10%Z.
Proof.
  intros Hr Hl0 Hl1' Run1 Later.
  destruct (acquire_spec st region1 l w0 Hr Hl0)
    as (d & h & w2a & w3a & Run2 & Run3 & Run & Hl3 & M2 & M3).
  destruct (wait_min_delay_spec st region1 l w0 Hl0) as (Hla & M1 & _).
  rewrite Run in Run1. inversion Run1; subst l1 w1. clear Run1.
  change (now (log "rate_limit_acquired" w3a)) with (now w3a) in *.
  assert (Hr1 : positive_rates (mkLimiter d h (now w3a) (region_delays l))).
  { destruct Hr as [Rd Rh].
    destruct (consume_spec 1 (daily_bucket l) _ Rd Hla)
      as (d' & w' & R & L & _ & _ & Rate & _).
    rewrite Run2 in R. inversion R; subst d' w'.
    destruct (consume_spec 1 (hourly_bucket l) _ Rh L)
      as (h' & w'' & R' & _ & _ & _ & Rate' & _).
    rewrite Run3 in R'. inversion R'; subst h' w''.
    split; cbn [daily_bucket hourly_bucket]; congruence. }
  split; [|split; [|reflexivity]].
  - destruct (acquire_spacing st region _ w1' Hr1 Hl1')
      as (l2 & w2 & RunB & Gap).
    exists l2, w2. split; [exact RunB|].
    cbn [last_request_time] in Gap.
    change (min_delay_of st (mkLimiter d h (now w3a) (region_delays l)) region)
      with (min_delay_of st l region) in Gap.
    split; lra.
  - intros st' w. split; [reflexivity|]. split; [reflexivity|].
    intros r N1 N2. unfold min_delay_of, dict_get, RateLimiter_init.
    cbn [region_delays dict_lookup].
    destruct (String.eqb_spec "Eastern_Europe" r) as [E|_]; [congruence|].
    destruct (String.eqb_spec "Far_East" r) as [E|_]; [congruence|].
    reflexivity.
Qed.

(** Two requests for [Far_East] in a row on the limiter of the defaults. *)
Lemma min_delay_enforced_witness :
  exists l1 w1 l2 w2,
    acquire settings "Far_East"
            (RateLimiter_init settings (mkWorld 0 [] []))
            (mkWorld 0 [] []) = Ok (l1, w1) /\
    acquire settings "Far_East" l1 w1 = Ok (l2, w2) /\
    now w1 + 15 <= now w2.
Proof.
  destruct (acquire settings "Far_East"
              (RateLimiter_init settings (mkWorld 0 [] []))
              (mkWorld 0 [] [])) as [[l1 w1]|e] eqn:R1;
    [|vm_compute in R1; discriminate].
  assert (Hw1 : lags w1 = []).
  { assert (R := R1). vm_compute in R. inversion R; reflexivity. }
  destruct (min_delay_enforced settings "Far_East" "Far_East"
              (RateLimiter_init settings (mkWorld 0 [] [])) l1
              (mkWorld 0 [] []) w1 w1)
    as [(l2 & w2 & R2 & B1 & _) _].
  - split; reflexivity.
  - constructor.
  - unfold lags_ok. rewrite Hw1. constructor.
  - exact R1.
  - apply Qle_refl.
  - exists l1, w1, l2, w2. split; [reflexivity|]. split; [exact R2|exact B1].
Defined.

(** ** HunterAgentV2 *)

Lemma service_run_length {X : Type} (f : Service X) (queries : list string) :
  forall x : X,
    List.length (fst (service_run f queries x)) = List.length queries.
Proof.
  induction queries as [|q qs IH]; intro x; simpl; [reflexivity|].
  destruct (f q x) as [x1 o].
  specialize (IH x1). destruct (service_run f qs x1) as [os x2].
  simpl in *. congruence.
Qed.

Lemma service_run_app {X : Type} (f : Service X) (qs1 qs2 : list string) :
  forall x : X,
    service_run f (qs1 ++ qs2) x =
    ((fst (service_run f qs1 x)
        ++ fst (service_run f qs2 (snd (service_run f qs1 x))))%list,
     snd (service_run f qs2 (snd (service_run f qs1 x)))).
Proof.
  induction qs1 as [|q qs IH]; intro x; simpl.
  - destruct (service_run f qs2 x); reflexivity.
  - destruct (f q x) as [x1 o]. rewrite IH.
    destruct (service_run f qs x1) as [os x2]. reflexivity.
Qed.

(** The outcomes of a search function that is never interrupted. *)
Lemma search_run_calm {X : Type} (search : SearchFn X)
    (queries : list string) :
  never_interrupted search ->
  forall x : X,
    search_run search queries x =
    (map Ordinary (fst (service_run (as_service search) queries x)),
     snd (service_run (as_service search) queries x)).
Proof.
  intro Calm. induction queries as [|q qs IH]; intro x; [reflexivity|].
  cbn [search_run service_run]. unfold as_service at 1 3.
  specialize (Calm q x).
  destruct (search q x) as [x1 [o|name]]; cbn [snd interrupted] in *;
    [|discriminate].
  rewrite IH.
  destruct (service_run (as_service search) qs x1) as [os x2]. reflexivity.
Qed.

Section Sweep.
Context {X : Type}.
Variable registry : PyDict (PyDict string).
Variable search : SearchFn X.
Hypothesis Calm : never_interrupted search.

(** One pair: the search is called once, its outcome is wrapped, and the
    limiter is left alone. *)
Lemma execute_protocol_spec (protocol_name : string)
    (country_info : PyDict string) (j : Job) (p : Process X) :
  job_of registry country_info protocol_name = Some j ->
  exists w',
    execute_protocol registry search protocol_name country_info p =
      (Ok (wrap j (snd (as_service search (job_query j) (services p)))),
       mkProcess w' (linkedin_rate_limiter p)
                 (fst (as_service search (job_query j) (services p)))).
Proof.
  unfold job_of. intro J.
  destruct (build_query registry protocol_name country_info) as [q|e] eqn:Q;
    [|discriminate].
  destruct (dict_lookup country_info "name") as [cn|] eqn:N; [|discriminate].
  inversion J; subst j; clear J. cbn [job_query].
  unfold execute_protocol, and_then, lift, try_except, dict_item,
    logging, on_world, call_search, ret, as_service.
  rewrite Q, N. cbn [world services linkedin_rate_limiter].
  pose proof (Calm q (services p)) as C.
  destruct (search q (services p)) as [x1 [[text|message]|name]];
    cbn [snd interrupted] in C; [| |discriminate];
    cbn [fst snd wrap job_protocol job_country job_query str_exc
         is_exception world services linkedin_rate_limiter];
    eexists; reflexivity.
Qed.

Lemma for_protocols_spec (country_info : PyDict string) :
  forall (names : list string) (acc : list (PyDict string)) (p : Process X),
    country_ok registry names country_info = true ->
    let jobs := jobs_of_country registry names country_info in
    let run := service_run (as_service search) (map job_query jobs)
                           (services p) in
    exists w',
      for_protocols registry search country_info names acc p =
        (Ok (acc ++ wrap_all jobs (fst run))%list,
         mkProcess w' (linkedin_rate_limiter p) (snd run)).
Proof.
  induction names as [|pn names IH]; intros acc p Hok; cbn zeta.
  - exists (world p). simpl. unfold ret, wrap_all. simpl.
    rewrite !app_nil_r. destruct p; reflexivity.
  - cbn [country_ok forallb] in Hok. apply andb_true_iff in Hok.
    destruct Hok as [Hj Hrest].
    destruct (job_of registry country_info pn) as [j|] eqn:J; [|discriminate].
    destruct (execute_protocol_spec pn country_info j p J) as (w1 & Run1).
    unfold jobs_of_country. cbn [flat_map]. rewrite J. cbn [option_list app map].
    fold (jobs_of_country registry names country_info).
    cbn [for_protocols]. unfold and_then at 1. rewrite Run1.
    unfold and_then at 1. cbn [sleeping on_world world linkedin_rate_limiter services].
    set (p1 := mkProcess (sleep 2 w1) (linkedin_rate_limiter p)
                 (fst (as_service search (job_query j) (services p)))).
    destruct (IH (acc ++ [wrap j (snd (as_service search (job_query j)
                                                  (services p)))])%list
                 p1 Hrest) as (w' & Run).
    cbn zeta in Run. cbn [services linkedin_rate_limiter world p1] in Run.
    exists w'. rewrite Run. cbn [service_run].
    destruct (as_service search (job_query j) (services p)) as [x1 o].
    cbn [fst snd].
    destruct (service_run (as_service search)
                (map job_query (jobs_of_country registry names country_info))
                x1) as [os x2].
    cbn [fst snd]. unfold wrap_all. cbn [combine map fst snd].
    rewrite <- app_assoc. reflexivity.
Qed.

Lemma wrap_all_app (jobs1 jobs2 : list Job) (outs1 outs2 : list Outcome) :
  List.length jobs1 = List.length outs1 ->
  wrap_all (jobs1 ++ jobs2) (outs1 ++ outs2) =
  (wrap_all jobs1 outs1 ++ wrap_all jobs2 outs2)%list.
Proof.
  revert outs1. induction jobs1 as [|j jobs1 IH]; intros [|o outs1] L;
    simpl in L; try discriminate.
  - reflexivity.
  - unfold wrap_all in *. simpl. f_equal. apply IH. congruence.
Qed.

Lemma for_countries_spec :
  forall (countries : PyDict (PyDict string)) (acc : list (PyDict string))
         (p : Process X),
    tables_ok countries registry = true ->
    let jobs := plan countries registry in
    let run := service_run (as_service search) (map job_query jobs)
                           (services p) in
    exists w',
      for_countries registry search countries acc p =
        (Ok (acc ++ wrap_all jobs (fst run))%list,
         mkProcess w' (linkedin_rate_limiter p) (snd run)).
Proof.
  induction countries as [|[country_name country_info] rest IH];
    intros acc p Hok; cbn zeta.
  - exists (world p). simpl. unfold ret, wrap_all. simpl.
    rewrite !app_nil_r. destruct p; reflexivity.
  - unfold tables_ok in Hok. cbn [forallb snd] in Hok.
    apply andb_true_iff in Hok. destruct Hok as [Hc Hrest].
    fold (tables_ok rest registry) in Hrest.
    unfold plan. cbn [flat_map snd]. fold (plan rest registry).
    set (jobs_c := jobs_of_country registry (dict_keys registry) country_info).
    cbn [for_countries]. unfold and_then at 1.
    cbn [logging on_world world linkedin_rate_limiter services].
    set (p0 := mkProcess (log "country_search_starting" (world p))
                         (linkedin_rate_limiter p) (services p)).
    destruct (for_protocols_spec country_info (dict_keys registry) acc p0 Hc)
      as (w1 & Run1).
    cbn zeta in Run1. fold jobs_c in Run1.
    cbn [services linkedin_rate_limiter world p0] in Run1.
    unfold and_then at 1. rewrite Run1.
    unfold and_then at 1.
    cbn [logging on_world world linkedin_rate_limiter services].
    set (run_c := service_run (as_service search) (map job_query jobs_c)
                              (services p)) in *.
    set (p2 := mkProcess (log "country_search_complete" w1)
                         (linkedin_rate_limiter p) (snd run_c)).
    destruct (IH (acc ++ wrap_all jobs_c (fst run_c))%list p2 Hrest)
      as (w' & Run).
    cbn zeta in Run. cbn [services linkedin_rate_limiter world p2] in Run.
    exists w'.
    rewrite Run. rewrite map_app, service_run_app. fold run_c.
    cbn [fst snd]. rewrite wrap_all_app, app_assoc; [reflexivity|].
    unfold run_c. rewrite service_run_length, length_map. reflexivity.
Qed.

(** The whole sweep in one equation. *)
Lemma sweep_spec (countries : PyDict (PyDict string)) (p : Process X) :
  tables_ok countries registry = true ->
  let jobs := plan countries registry in
  let run := service_run (as_service search) (map job_query jobs)
                         (services p) in
  exists w',
    sweep countries registry search p =
      (Ok (wrap_all jobs (fst run)),
       mkProcess w' (linkedin_rate_limiter p) (snd run)).
Proof.
  intro Hok. exact (for_countries_spec countries [] p Hok).
Qed.
End Sweep.

Lemma pair_of_wrap (j : Job) (o : Outcome) :
  pair_of (wrap j o) = (job_country j, job_protocol j).
Proof. destruct o; reflexivity. Qed.

Lemma length_wrap_all (jobs : list Job) :
  forall outs : list Outcome,
    List.length outs = List.length jobs ->
    List.length (wrap_all jobs outs) = List.length jobs.
Proof.
  intros outs L. unfold wrap_all. rewrite length_map, length_combine, L.
  apply Nat.min_id.
Qed.

Lemma pairs_of_wrap_all (jobs : list Job) :
  forall outs : list Outcome,
    List.length outs = List.length jobs ->
    map pair_of (wrap_all jobs outs)
    = map (fun j => (job_country j, job_protocol j)) jobs.
Proof.
  unfold wrap_all.
  induction jobs as [|j jobs IH]; intros [|o outs] L; simpl in L;
    try discriminate; [reflexivity|].
  simpl. rewrite pair_of_wrap. f_equal. apply IH. congruence.
Qed.

Lemma nth_error_wrap_all (jobs : list Job) :
  forall (outs : list Outcome) (i : nat),
    nth_error (wrap_all jobs outs) i =
    match nth_error jobs i, nth_error outs i with
    | Some j, Some o => Some (wrap j o)
    | _, _ => None
    end.
Proof.
  unfold wrap_all.
  induction jobs as [|j jobs IH]; intros outs i.
  - destruct i; reflexivity.
  - destruct outs as [|o outs].
    + destruct i; simpl; [reflexivity|]. destruct (nth_error jobs i); reflexivity.
    + destruct i; simpl; [reflexivity|]. apply IH.
Qed.

Lemma jobs_of_country_pairs (registry : PyDict (PyDict string))
    (country_info : PyDict string) (names : list string) :
  country_ok registry names country_info = true ->
  map (fun j => (job_country j, job_protocol j))
      (jobs_of_country registry names country_info)
  = map (pair (dict_get country_info "name" "")) names.
Proof.
  induction names as [|pn names IH]; intro Hok; [reflexivity|].
  cbn [country_ok forallb] in Hok. apply andb_true_iff in Hok.
  destruct Hok as [Hj Hrest].
  unfold jobs_of_country. cbn [flat_map].
  fold (jobs_of_country registry names country_info).
  rewrite map_app, (IH Hrest). clear IH Hrest.
  unfold job_of in *.
  destruct (build_query registry pn country_info) as [q|e]; [|discriminate].
  unfold dict_get.
  destruct (dict_lookup country_info "name") as [cn|] eqn:N; [|discriminate].
  reflexivity.
Qed.

Lemma plan_pairs (countries registry : PyDict (PyDict string)) :
  tables_ok countries registry = true ->
  map (fun j => (job_country j, job_protocol j)) (plan countries registry)
  = list_prod (map (fun c => dict_get (snd c) "name" "") countries)
              (dict_keys registry).
Proof.
  unfold tables_ok, plan.
  induction countries as [|c rest IH]; intro Hok; [reflexivity|].
  cbn [forallb] in Hok. apply andb_true_iff in Hok. destruct Hok as [Hc Hrest].
  cbn [flat_map map list_prod]. rewrite map_app, (IH Hrest).
  rewrite (jobs_of_country_pairs _ _ _ Hc). reflexivity.
Qed.

Lemma NoDup_list_prod {A B : Type} (l : list A) (l' : list B) :
  NoDup l -> NoDup l' -> NoDup (list_prod l l').
Proof.
  intros Hl Hl'. induction Hl as [|a l Ha Hl IH]; simpl; [constructor|].
  apply NoDup_app.
  - clear IH. induction Hl' as [|b l' Hb Hl' IH']; simpl; constructor.
    + intro I. apply in_map_iff in I. destruct I as (y & E & I).
      inversion E; subst. contradiction.
    + exact IH'.
  - exact IH.
  - intros [a' b'] I1 I2. apply in_map_iff in I1.
    destruct I1 as (y & E & _). inversion E; subst.
    apply in_prod_iff in I2. destruct I2 as [I _]. contradiction.
Qed.

(** C1: what the code does where the claim expects one [acquire] per pair.
    The sweep of the module's 20 pairs with the mock search of the test
    script calls the search function 20 times and the limiter not once: no
    [rate_limit_acquired] event is logged and no token leaves the
    buckets. *)
Lemma sweep_never_acquires :
  exists results p',
    search_all_countries mock_search (start settings tt) = (Ok results, p') /\
    List.length results = 20%nat /\
    List.length (filter is_search (trace (world p'))) = 20%nat /\
    List.length (filter is_acquire (trace (world p'))) = 0%nat /\
    List.length (filter is_acquire (trace (world p'))) <> List.length results /\
    tokens (daily_bucket (linkedin_rate_limiter p')) == 40 /\
    tokens (hourly_bucket (linkedin_rate_limiter p')) == 10.
Proof.
  eexists; eexists. split; [vm_compute; reflexivity|].
  split; [reflexivity|]. split; [reflexivity|]. split; [reflexivity|].
  split; [discriminate|]. split; reflexivity.
Qed.

(** C6 (as amended): a sweep over E entities and P protocols whose search
    calls return or raise an [Exception] gives exactly E * P results, one
    per pair, entities outside and protocols inside, however many of the
    calls raise; the pairs are distinct when the entity names and the
    protocol keys are. *)
Theorem sweep_complete {X : Type}
    (countries registry : PyDict (PyDict string)) (search : SearchFn X)
    (p : Process X) :
  tables_ok countries registry = true ->
  never_interrupted search ->
  exists results p',
    sweep countries registry search p = (Ok results, p') /\
    List.length results = (List.length countries * List.length registry)%nat /\
    map pair_of results =
      list_prod (map (fun c => dict_get (snd c) "name" "") countries)
                (dict_keys registry) /\
    (NoDup (map (fun c => dict_get (snd c) "name" "") countries) ->
     NoDup (dict_keys registry) -> NoDup (map pair_of results)).
Proof.
  intros Hok Calm.
  destruct (sweep_spec registry search Calm countries p Hok) as (w' & Run).
  cbn zeta in Run.
  eexists; eexists. split; [exact Run|].
  assert (L : List.length
                (fst (service_run (as_service search)
                        (map job_query (plan countries registry)) (services p)))
              = List.length (plan countries registry))
    by (rewrite service_run_length, length_map; reflexivity).
  assert (P : map pair_of
                (wrap_all (plan countries registry)
                   (fst (service_run (as_service search)
                           (map job_query (plan countries registry))
                           (services p))))
              = list_prod (map (fun c => dict_get (snd c) "name" "") countries)
                          (dict_keys registry))
    by (rewrite (pairs_of_wrap_all _ _ L); apply plan_pairs; exact Hok).
  split; [|split; [exact P|]].
  - rewrite <- (length_map pair_of), P, length_prod, length_map.
    unfold dict_keys. rewrite length_map. reflexivity.
  - intros N1 N2. rewrite P. apply NoDup_list_prod; assumption.
Qed.

(** The module's own tables, with a search function that raises an
    [Exception] on every call: 5 * 4 results all the same. *)
Lemma sweep_complete_witness :
  exists results p',
    search_all_countries
      (fun (_ : string) (x : unit) => (x, Ordinary (Raises "down")))
      (start settings tt) = (Ok results, p') /\
    List.length results = 20%nat /\
    NoDup (map pair_of results).
Proof.
  destruct (sweep_complete APPROVED_COUNTRIES OSINT_PROTOCOLS
              (fun (_ : string) (x : unit) => (x, Ordinary (Raises "down")))
              (start settings tt))
    as (results & p' & Run & Len & _ & Dis).
  - vm_compute. reflexivity.
  - intros q x. reflexivity.
  - exists results, p'. split; [exact Run|]. split; [exact Len|].
    apply Dis; repeat constructor; simpl; intuition discriminate.
Defined.

(** C6 as stated fails: a search whose first call is cancelled raises
    [CancelledError], which [except Exception] does not catch; the sweep of
    the 20 pairs raises it in turn and returns no result at all. *)
Lemma sweep_cancelled_returns_nothing :
  (exists p',
     search_all_countries
       (fun (_ : string) (x : unit) => (x, Interrupted "CancelledError"))
       (start settings tt) = (Raise (Interrupt "CancelledError"), p')) /\
  ~ (exists results p',
       search_all_countries
         (fun (_ : string) (x : unit) => (x, Interrupted "CancelledError"))
         (start settings tt) = (Ok results, p') /\
       List.length results = 20%nat).
Proof.
  split.
  - eexists. vm_compute. reflexivity.
  - intros (results & p' & Run & _). vm_compute in Run. discriminate Run.
Qed.

(** C7 (as amended): a search that raises an [Exception] for one pair is
    recorded in that pair's result, with its protocol, country and query,
    and nothing else changes: when no call is interrupted all results are
    produced, and the result of a pair depends on the outcome of its own
    search only. *)
Theorem sweep_fault_isolation {X : Type}
    (countries registry : PyDict (PyDict string)) (search : SearchFn X)
    (p : Process X) :
  tables_ok countries registry = true ->
  never_interrupted search ->
  let jobs := plan countries registry in
  let outs := fst (search_run search (map job_query jobs) (services p)) in
  exists results p',
    sweep countries registry search p = (Ok results, p') /\
    List.length results = List.length jobs /\
    (forall i j o,
       nth_error jobs i = Some j -> nth_error outs i = Some (Ordinary o) ->
       nth_error results i = Some (wrap j o)) /\
    (forall i j message,
       nth_error jobs i = Some j ->
       nth_error outs i = Some (Ordinary (Raises message)) ->
       nth_error results i =
         Some [("protocol", job_protocol j); ("country", job_country j);
               ("query", job_query j); ("error", message)]) /\
    (forall (search2 : SearchFn X) (p2 : Process X) results2 p2',
       never_interrupted search2 ->
       sweep countries registry search2 p2 = (Ok results2, p2') ->
       forall k,
         nth_error (fst (search_run search2 (map job_query jobs) (services p2))) k
         = nth_error outs k ->
         nth_error results2 k = nth_error results k).
Proof.
  intros Hok Calm jobs outs.
  destruct (sweep_spec registry search Calm countries p Hok) as (w' & Run).
  cbn zeta in Run. fold jobs in Run.
  set (souts := fst (service_run (as_service search) (map job_query jobs)
                                 (services p))) in *.
  assert (Outs : outs = map Ordinary souts).
  { unfold outs. rewrite (search_run_calm search _ Calm). reflexivity. }
  eexists; eexists. split; [exact Run|].
  assert (Inj : forall (l : list Outcome) i o,
             nth_error (map Ordinary l) i = Some (Ordinary o) ->
             nth_error l i = Some o).
  { intros l i o H. rewrite nth_error_map in H.
    destruct (nth_error l i); simpl in H; [inversion H; reflexivity|discriminate]. }
  assert (Each : forall i j o,
             nth_error jobs i = Some j -> nth_error outs i = Some (Ordinary o) ->
             nth_error (wrap_all jobs souts) i = Some (wrap j o)).
  { intros i j o Hj Ho. rewrite Outs in Ho. apply Inj in Ho.
    rewrite nth_error_wrap_all, Hj, Ho. reflexivity. }
  split; [|split; [exact Each|split]].
  - apply length_wrap_all. unfold souts.
    rewrite service_run_length, length_map. reflexivity.
  - intros i j message Hj Ho. exact (Each i j _ Hj Ho).
  - intros search2 p2 results2 p2' Calm2 Run2 k Same.
    destruct (sweep_spec registry search2 Calm2 countries p2 Hok) as (w2 & Run2').
    cbn zeta in Run2'. fold jobs in Run2'.
    rewrite Run2 in Run2'. inversion Run2'; subst results2.
    rewrite (search_run_calm search2 _ Calm2), Outs in Same. cbn [fst] in Same.
    rewrite !nth_error_map in Same.
    rewrite !nth_error_wrap_all.
    destruct (nth_error
                (fst (service_run (as_service search2) (map job_query jobs)
                                  (services p2))) k) as [o2|];
      destruct (nth_error souts k) as [o1|]; simpl in Same;
      try discriminate; [inversion Same; reflexivity|].
    destruct (nth_error jobs k); reflexivity.
Qed.

(** The module's own tables with a search that times out on its 13th call,
    the pair (Japan, portfolio_match). *)
Lemma sweep_fault_isolation_witness :
  exists results p',
    search_all_countries
      (fun (_ : string) (n : nat) =>
         (S n, Ordinary (if Nat.eqb n 12 then Raises "timeout"
                         else Returns "ok")))
      (start settings 0%nat) = (Ok results, p') /\
    List.length results = 20%nat /\
    nth_error results 12 =
      Some [("protocol", "portfolio_match"); ("country", "Japan");
            ("query", "filetype:pdf " ++ quoted "wine portfolio" ++ " ("
                      ++ quoted "Israel" ++ " OR " ++ quoted "Kosher"
                      ++ ") site:.jp");
            ("error", "timeout")].
Proof.
  destruct (sweep_fault_isolation APPROVED_COUNTRIES OSINT_PROTOCOLS
              (fun (_ : string) (n : nat) =>
                 (S n, Ordinary (if Nat.eqb n 12 then Raises "timeout"
                                 else Returns "ok")))
              (start settings 0%nat))
    as (results & p' & Run & Len & _ & Failed & _).
  - vm_compute. reflexivity.
  - intros q x. reflexivity.
  - exists results, p'. split; [exact Run|]. split; [exact Len|].
    apply (Failed 12%nat
             (mkJob "portfolio_match" "Japan"
                    ("filetype:pdf " ++ quoted "wine portfolio" ++ " ("
                     ++ quoted "Israel" ++ " OR " ++ quoted "Kosher"
                     ++ ") site:.jp"))
             "timeout"); vm_compute; reflexivity.
Defined.

(** C7 as stated fails: a search that raises [KeyboardInterrupt] for the
    pair (Japan, portfolio_match), its 13th call, is not recovered: the
    sweep raises it and the results of the twelve pairs before, like those
    of the seven after, are not returned. *)
Lemma sweep_interrupt_aborts :
  (exists p',
     search_all_countries
       (fun (_ : string) (n : nat) =>
          (S n, if Nat.eqb n 12 then Interrupted "KeyboardInterrupt"
                else Ordinary (Returns "ok")))
       (start settings 0%nat) = (Raise (Interrupt "KeyboardInterrupt"), p') /\
     services p' = 13%nat) /\
  ~ (exists results p',
       search_all_countries
         (fun (_ : string) (n : nat) =>
            (S n, if Nat.eqb n 12 then Interrupted "KeyboardInterrupt"
                  else Ordinary (Returns "ok")))
         (start settings 0%nat) = (Ok results, p')).
Proof.
  split.
  - eexists. split; [vm_compute; reflexivity|reflexivity].
  - intros (results & p' & Run). vm_compute in Run. discriminate Run.
Qed.





Lemma lead_prompt_error (r : PyDict string) (e : PyExc) :
  lead_prompt r = Raise e -> is_exception e = true.
Proof.
  unfold lead_prompt, dict_item.
  destruct (dict_lookup r "protocol"); cbn [bind]; [|intro H; inversion H; reflexivity].
  destruct (dict_lookup r "country"); cbn [bind]; [|intro H; inversion H; reflexivity].
  destruct (dict_lookup r "raw_result"); cbn [bind]; [discriminate|].
  intro H; inversion H; reflexivity.
Qed.

Lemma parse_loop_keeps_leads {X : Type} (generate_text : Service X)
    (search_results : list (PyDict string)) :
  forall (leads_created : list string) (p : Process X),
    exists p',
      parse_loop generate_text search_results leads_created p
      = (Ok leads_created, p') /\
      linkedin_rate_limiter p' = linkedin_rate_limiter p.
Proof.
  induction search_results as [|r rest IH]; intros leads p.
  - exists p. split; reflexivity.
  - cbn [parse_loop]. destruct (dict_contains r "error"); [apply IH|].
    unfold and_then at 1.
    match goal with
    | |- context [try_except ?body ?handler p] =>
        assert (Step : exists u p1,
                   try_except body handler p = (Ok u, p1) /\
                   linkedin_rate_limiter p1 = linkedin_rate_limiter p)
    end.
    { unfold try_except, and_then, lift, call_gemini, logging, on_world.
      destruct (lead_prompt r) as [prompt|e] eqn:Prompt.
      - destruct (generate_text prompt (services p)) as [x1 [text|message]];
          eexists; eexists; split; reflexivity.
      - rewrite (lead_prompt_error r e Prompt).
        eexists; eexists; split; reflexivity. }
    destruct Step as (u & p1 & Step & Lim). rewrite Step.
    destruct (IH leads p1) as (p' & Run & Lim').
    exists p'. split; [exact Run|congruence].
Qed.

(** C10: [parse_results_to_leads] returns the empty list for every list of
    search results, every campaign id and every behaviour of the Gemini
    service: no lead id is ever appended. *)
Theorem parse_results_to_leads_empty {X : Type} (generate_text : Service X)
    (search_results : list (PyDict string)) (campaign_id : string)
    (p : Process X) :
  exists p',
    parse_results_to_leads generate_text search_results campaign_id p
    = (Ok [], p').
Proof.
  destruct (parse_loop_keeps_leads generate_text search_results [] p)
    as (p' & Run & _).
  exists p'. exact Run.
Qed.

(** ** The extractor *)

Lemma str_split_not_nil (sep : ascii) (s : string) : str_split sep s <> [].
Proof.
  induction s as [|c s IH]; simpl; [discriminate|].
  destruct (Ascii.eqb c sep); [discriminate|].
  destruct (str_split sep s); discriminate.
Qed.

Lemma str_take_prefix (n : nat) :
  forall s : string, String.prefix (str_take n s) s = true.
Proof.
  induction n as [|n IH]; intros [|c s]; simpl; try reflexivity.
  destruct (ascii_dec c c) as [_|N]; [apply IH|contradiction].
Qed.

Lemma match_scheme_shape (scheme s u : string) :
  match_scheme scheme s = Some u -> exists rest, u = scheme ++ rest.
Proof.
  unfold match_scheme. destruct (String.prefix scheme s); [|discriminate].
  destruct (take_while url_char (str_drop (String.length scheme) s)) as [|c run];
    [discriminate|].
  intro E. inversion E. eexists; reflexivity.
Qed.

Lemma match_url_shape (s u : string) : match_url s = Some u -> has_scheme u.
Proof.
  unfold match_url.
  destruct (match_scheme "https://" s) as [u'|] eqn:E.
  - intro H; inversion H; subst u'.
    destruct (match_scheme_shape _ _ _ E) as [rest R].
    exists rest; left; exact R.
  - intro H. destruct (match_scheme_shape _ _ _ H) as [rest R].
    exists rest; right; exact R.
Qed.

Lemma findall_shape (s : string) :
  forall (skip : nat) (u : string),
    In u (findall_from skip s) -> has_scheme u.
Proof.
  induction s as [|c s IH]; intros skip u; simpl; [contradiction|].
  destruct skip as [|k]; [|apply IH].
  destruct (match_url (String c s)) as [u'|] eqn:M; [|apply IH].
  intros [E|I]; [subst u'; exact (match_url_shape _ _ M)|exact (IH _ _ I)].
Qed.

(** The third [/]-separated piece of such a URL exists. *)
Lemma authority_exists (u : string) :
  has_scheme u -> exists authority, list_item (str_split "/" u) 2 = Ok authority.
Proof.
  intros [rest [E|E]]; subst u; unfold list_item; simpl;
    destruct (str_split "/" rest) as [|a l] eqn:S;
    try (exfalso; exact (str_split_not_nil _ _ S));
    exists a; reflexivity.
Qed.

Lemma replace_from_skip (old new : string) (s : string) :
  forall skip : nat,
    replace_from old new skip s = replace_from old new 0 (str_drop skip s).
Proof.
  induction s as [|c s IH]; intro skip.
  - destruct skip; reflexivity.
  - destruct skip as [|k]; [reflexivity|].
    cbn [replace_from str_drop]. apply IH.
Qed.

Lemma replace_absent (old new : string) (s : string) :
  occurs old s = false -> replace_from old new 0 s = s.
Proof.
  unfold occurs. induction s as [|c s IH]; [reflexivity|].
  cbn [re_search replace_from]. intro H.
  apply orb_false_iff in H. destruct H as [H1 H2].
  rewrite H1, (IH H2). reflexivity.
Qed.

(** Where the host has no [www.] but a leading one, removing every
    occurrence is stripping the leading one. *)
Lemma replace_www_leading (host : string) :
  occurs "www." (strip_leading_www host) = false ->
  str_replace "www." "" host = strip_leading_www host.
Proof.
  unfold str_replace, strip_leading_www.
  destruct (String.prefix "www." host) eqn:P; intro H.
  - destruct host as [|c host']; [discriminate|].
    cbn [replace_from]. rewrite P. cbn [String.length Nat.sub append].
    rewrite replace_from_skip.
    change (str_drop 3 host') with (str_drop 4 (String c host')).
    apply replace_absent. exact H.
  - apply replace_absent. exact H.
Qed.

Lemma str_take_exact (n : nat) :
  forall s : string,
    String.length (str_take n s) = Nat.min n (String.length s).
Proof.
  induction n as [|n IH]; intros [|c s]; cbn [str_take String.length Nat.min];
    try reflexivity.
  rewrite IH. reflexivity.
Qed.

(** C8 (as amended): the extractor returns for every text.  Without a URL
    the company name is [Unknown] and the website is empty.  With one, the
    website is the first URL and the company name comes from its host, the
    piece after the second slash: every [www.] is removed, the part before
    the first dot is kept and put in title case; for a host with no [www.]
    but a leading one this is the host label with the leading [www.]
    stripped.  The snippet is the first 300 characters of the text, the
    whole text when it is shorter.  The two texts of the specification give
    the fields it names; a host with two [www.], one with capitals and one
    with an accented letter give [Wine], [Examplewine] and the capital
    E-acute; of two URLs the first is taken, and it ends at the quote. *)
Theorem extract_company_info_total :
  (forall text country : string,
     exists info,
       extract_company_info text country = Ok info /\
       dict_lookup info "country" = Some country /\
       dict_lookup info "raw_snippet" = Some (str_take 300 text) /\
       match extract_urls_from_text text with
       | [] =>
           dict_lookup info "company_name" = Some "Unknown" /\
           dict_lookup info "website" = Some ""
       | url0 :: _ =>
           exists authority,
             nth_error (str_split "/" url0) 2 = Some authority /\
             dict_lookup info "website" = Some url0 /\
             (occurs "www." (strip_leading_www authority) = false ->
              str_forallb title_in_model authority = true ->
              dict_lookup info "company_name"
              = Some (company_name_of_host authority))
       end) /\
  (forall text : string,
     String.length (str_take 300 text) = Nat.min 300 (String.length text) /\
     String.prefix (str_take 300 text) text = true) /\
  extract_company_info "no urls here" "Poland" =
    Ok [("country", "Poland"); ("company_name", "Unknown"); ("website", "");
        ("decision_maker", ""); ("relevance_score", "");
        ("raw_snippet", "no urls here")] /\
  extract_company_info "see https://examplewine.co.uk/catalog for info" "Poland" =
    Ok [("country", "Poland"); ("company_name", "Examplewine");
        ("website", "https://examplewine.co.uk/catalog");
        ("decision_maker", ""); ("relevance_score", "");
        ("raw_snippet", "see https://examplewine.co.uk/catalog for info")] /\
  extract_company_info "list at http://www.www.wine.pl/list" "Poland" =
    Ok [("country", "Poland"); ("company_name", "Wine");
        ("website", "http://www.www.wine.pl/list");
        ("decision_maker", ""); ("relevance_score", "");
        ("raw_snippet", "list at http://www.www.wine.pl/list")] /\
  extract_company_info "https://www.ExampleWINE.co.uk" "Poland" =
    Ok [("country", "Poland"); ("company_name", "Examplewine");
        ("website", "https://www.ExampleWINE.co.uk");
        ("decision_maker", ""); ("relevance_score", "");
        ("raw_snippet", "https://www.ExampleWINE.co.uk")] /\
  extract_company_info ("https://" ++ String "233" "cole-du-vin.fr/carte")
                       "Poland" =
    Ok [("country", "Poland");
        ("company_name", String "201" "cole-Du-Vin");
        ("website", "https://" ++ String "233" "cole-du-vin.fr/carte");
        ("decision_maker", ""); ("relevance_score", "");
        ("raw_snippet", "https://" ++ String "233" "cole-du-vin.fr/carte")] /\
  extract_company_info
    ("href=" ++ quoted "http://www.vino.ro/a" ++ " or https://two.pl") "Romania" =
    Ok [("country", "Romania"); ("company_name", "Vino");
        ("website", "http://www.vino.ro/a");
        ("decision_maker", ""); ("relevance_score", "");
        ("raw_snippet",
         "href=" ++ quoted "http://www.vino.ro/a" ++ " or https://two.pl")].
Proof.
  split; [|split; [|repeat split; reflexivity]].
  - intros text country. unfold extract_company_info.
    destruct (extract_urls_from_text text) as [|url0 urls] eqn:U.
    + eexists. split; [reflexivity|]. repeat split; reflexivity.
    + assert (Sh : has_scheme url0).
      { apply (findall_shape text 0). unfold extract_urls_from_text in U.
        rewrite U. left; reflexivity. }
      destruct (authority_exists url0 Sh) as [authority A].
      assert (A' : nth_error (str_split "/" url0) 2 = Some authority).
      { unfold list_item in A.
        destruct (nth_error (str_split "/" url0) 2) as [a|]; [|discriminate].
        inversion A; reflexivity. }
      rewrite A. cbn [bind].
      destruct (str_split "." (str_replace "www." "" authority))
        as [|label labels] eqn:L;
        [exfalso; exact (str_split_not_nil _ _ L)|].
      unfold list_item at 1. cbn [nth_error bind].
      eexists. split; [reflexivity|].
      split; [reflexivity|]. split; [reflexivity|].
      exists authority.
      split; [exact A'|]. split; [reflexivity|].
      intros Lead _. unfold company_name_of_host.
      rewrite <- (replace_www_leading authority Lead), L. reflexivity.
  - intro text. split; [apply str_take_exact|apply str_take_prefix].
Qed.

(** C8 as stated fails: for a host with a second [www.] the code removes
    both and names the company [Wine]; stripping the leading one, as the
    claim has it, gives [Www]. *)
Lemma company_name_removes_every_www :
  exists info,
    extract_company_info "http://www.www.wine.pl/list" "Poland" = Ok info /\
    nth_error (str_split "/" "http://www.www.wine.pl/list") 2
      = Some "www.www.wine.pl" /\
    dict_lookup info "company_name" = Some "Wine" /\
    company_name_of_host "www.www.wine.pl" = "Www" /\
    dict_lookup info "company_name"
      <> Some (company_name_of_host "www.www.wine.pl").
Proof.
  eexists. split; [reflexivity|]. split; [reflexivity|].
  split; [reflexivity|]. split; [reflexivity|]. discriminate.
Qed.

(** A host with a leading [www.] and a capital inside. *)
Lemma extract_company_info_total_witness :
  exists info,
    extract_company_info "see https://www.Tulip-Winery.co.il/en" "Israel"
      = Ok info /\
    dict_lookup info "website" = Some "https://www.Tulip-Winery.co.il/en" /\
    dict_lookup info "company_name" = Some "Tulip-Winery".
Proof.
  destruct extract_company_info_total as [General _].
  destruct (General "see https://www.Tulip-Winery.co.il/en" "Israel")
    as (info & Run & _ & _ & Url).
  exists info. split; [exact Run|].
  change (extract_urls_from_text "see https://www.Tulip-Winery.co.il/en")
    with ["https://www.Tulip-Winery.co.il/en"] in Url.
  destruct Url as (authority & A & Site & Name).
  split; [exact Site|].
  change (nth_error (str_split "/" "https://www.Tulip-Winery.co.il/en") 2)
    with (Some "www.Tulip-Winery.co.il") in A.
  inversion A; subst authority.
  apply Name; reflexivity.
Defined.

(** * Further properties *)

(** ** TokenBucket and RateLimiter *)

(** X1: refills compose.  With a refill rate that is not negative, a refill
    at one instant followed by a refill at a later one leaves the tokens and
    the refill time that the later refill alone would have left; refilling
    twice at the same instant changes nothing. *)
Theorem refills_compose (b : TokenBucket) (w1 w2 : World) :
  0 <= refill_rate b -> now w1 <= now w2 ->
  tokens (refill (refill b w1) w2) == tokens (refill b w2) /\
  last_refill (refill (refill b w1) w2) = last_refill (refill b w2) /\
  tokens (refill (refill b w1) w1) == tokens (refill b w1).
Proof.
  intros Hr Ht. split; [|split].
  - rewrite (refill_twice b w1 w2 Hr Ht). reflexivity.
  - reflexivity.
  - rewrite (refill_twice b w1 w1 Hr (Qle_refl _)). reflexivity.
Qed.

(** The hourly bucket of the defaults, drained, after 6 and after 12
    minutes. *)
Lemma refills_compose_witness :
  tokens (refill (refill (mkBucket 10 0 0 (10 # 3600)) (mkWorld 360 [] []))
                 (mkWorld 720 [] []))
  == tokens (refill (mkBucket 10 0 0 (10 # 3600)) (mkWorld 720 [] [])).
Proof.
  apply (refills_compose (mkBucket 10 0 0 (10 # 3600))
                         (mkWorld 360 [] []) (mkWorld 720 [] [])).
  - discriminate.
  - discriminate.
Defined.

(** X2: a bucket whose refill rate is 0 (the default of the dataclass) never
    gains a token; [consume] serves a request the stored tokens cover and
    raises [ZeroDivisionError], instead of waiting, for one they do not. *)
Theorem consume_zero_rate (n : Z) (b : TokenBucket) (w : World) :
  refill_rate b == 0 ->
  tokens (refill b w) == Qmin (inject_Z (capacity b)) (tokens b) /\
  (inject_Z n <= tokens (refill b w) ->
   consume n b w = Ok (take n (refill b w), w)) /\
  (tokens (refill b w) < inject_Z n ->
   consume n b w = Raise ZeroDivisionError).
Proof.
  intro Zero. split; [|split].
  - rewrite refill_tokens. unfold refilled.
    assert (E : tokens b + (now w - last_refill b) * refill_rate b == tokens b)
      by (rewrite Zero; ring).
    rewrite E. reflexivity.
  - apply consume_fast.
  - intro Short. unfold consume.
    apply Qle_bool_false in Short. rewrite Short.
    assert (Z' : Qeq_bool (refill_rate (refill b w)) 0 = true)
      by (apply Qeq_bool_iff; exact Zero).
    rewrite Z'. reflexivity.
Qed.

(** [TokenBucket(capacity=1)]: the first token is served, the second
    request raises. *)
Lemma consume_zero_rate_witness :
  consume 1 (mkBucket 1 1 0 0) (mkWorld 5 [] [])
    = Ok (take 1 (refill (mkBucket 1 1 0 0) (mkWorld 5 [] [])), mkWorld 5 [] []) /\
  consume 1 (mkBucket 1 0 0 0) (mkWorld 5 [] []) = Raise ZeroDivisionError.
Proof.
  split.
  - apply (consume_zero_rate 1 (mkBucket 1 1 0 0) (mkWorld 5 [] [])).
    + reflexivity.
    + vm_compute. discriminate.
  - apply (consume_zero_rate 1 (mkBucket 1 0 0 0) (mkWorld 5 [] [])).
    + reflexivity.
    + vm_compute. reflexivity.
Defined.

(** X3: [get_status] refills and reads, it does not consume: each reading
    is the token count it stores, lies between the count stored before
    (capped at the capacity) and the capacity, and the time of the last
    request and the delay table are untouched. *)
Theorem get_status_reads (l : RateLimiter) (w : World) :
  0 <= refill_rate (daily_bucket l) -> 0 <= refill_rate (hourly_bucket l) ->
  last_refill (daily_bucket l) <= now w ->
  last_refill (hourly_bucket l) <= now w ->
  let l' := fst (get_status l w) in
  let status := snd (get_status l w) in
  dict_lookup status "daily_tokens_remaining" = Some (tokens (daily_bucket l')) /\
  dict_lookup status "hourly_tokens_remaining" = Some (tokens (hourly_bucket l')) /\
  dict_lookup status "daily_capacity"
    = Some (inject_Z (capacity (daily_bucket l))) /\
  dict_lookup status "hourly_capacity"
    = Some (inject_Z (capacity (hourly_bucket l))) /\
  Qmin (inject_Z (capacity (daily_bucket l))) (tokens (daily_bucket l))
    <= tokens (daily_bucket l') /\
  tokens (daily_bucket l') <= inject_Z (capacity (daily_bucket l)) /\
  Qmin (inject_Z (capacity (hourly_bucket l))) (tokens (hourly_bucket l))
    <= tokens (hourly_bucket l') /\
  tokens (hourly_bucket l') <= inject_Z (capacity (hourly_bucket l)) /\
  last_request_time l' = last_request_time l /\
  region_delays l' = region_delays l.
Proof.
  intros Rd Rh Pd Ph. cbv zeta.
  assert (Grow : forall b : TokenBucket,
             0 <= refill_rate b -> last_refill b <= now w ->
             Qmin (inject_Z (capacity b)) (tokens b) <= tokens (refill b w) /\
             tokens (refill b w) <= inject_Z (capacity b)).
  { intros b Hr Hp. rewrite refill_tokens.
    assert (G : 0 <= (now w - last_refill b) * refill_rate b)
      by (apply Qmult_le_0_compat; lra).
    split; [|apply refilled_le_capacity].
    destruct (refilled_cases b (now w - last_refill b)) as [[L E]|[L E]];
      rewrite E;
      destruct (Q.min_spec (inject_Z (capacity b)) (tokens b)) as [[L' E']|[L' E']];
      rewrite E'; lra. }
  destruct (Grow _ Rd Pd) as [D1 D2]. destruct (Grow _ Rh Ph) as [H1 H2].
  repeat split; try reflexivity; assumption.
Qed.

(** The limiter of the defaults, read a minute after start-up. *)
Lemma get_status_reads_witness :
  dict_lookup
    (snd (get_status (RateLimiter_init settings (mkWorld 0 [] []))
                     (mkWorld 60 [] [])))
    "daily_capacity" = Some (inject_Z 40) /\
  tokens (daily_bucket
            (fst (get_status (RateLimiter_init settings (mkWorld 0 [] []))
                             (mkWorld 60 [] []))))
    <= inject_Z 40.
Proof.
  destruct (get_status_reads (RateLimiter_init settings (mkWorld 0 [] []))
                             (mkWorld 60 [] []))
    as (_ & _ & Cap & _ & _ & Top & _).
  - discriminate.
  - discriminate.
  - discriminate.
  - discriminate.
  - split; [exact Cap|exact Top].
Defined.

(** One [acquire] on a limiter whose buckets can hold a token. *)
Lemma acquire_step (st : Settings) (region : string) (l : RateLimiter)
    (w : World) :
  positive_rates l -> lags_ok w ->
  (1 <= capacity (daily_bucket l))%Z -> (1 <= capacity (hourly_bucket l))%Z ->
  exists l' w',
    acquire st region l w = Ok (l', w') /\
    positive_rates l' /\ lags_ok w' /\
    capacity (daily_bucket l') = capacity (daily_bucket l) /\
    capacity (hourly_bucket l') = capacity (hourly_bucket l) /\
    region_delays l' = region_delays l /\
    last_request_time l' = now w' /\
    last_request_time l + inject_Z (min_delay_of st l region) <= now w' /\
    now w <= now w' /\
    bucket_ok (daily_bucket l') /\ bucket_ok (hourly_bucket l').
Proof.
  intros Hr Hl Cd Ch.
  destruct (acquire_spec st region l w Hr Hl)
    as (d & h & w2 & w3 & Run2 & Run3 & Run & Hl3 & M2 & M3).
  destruct (wait_min_delay_spec st region l w Hl) as (Hl1 & M1 & Gap & _).
  destruct Hr as [Rd Rh].
  destruct (consume_spec 1 (daily_bucket l) _ Rd Hl1)
    as (d' & w2' & R & Hl2 & _ & CapD & RateD & _ & _ & PosD & TopD & _).
  rewrite Run2 in R. inversion R; subst d' w2'. clear R.
  destruct (consume_spec 1 (hourly_bucket l) w2 Rh Hl2)
    as (h' & w3' & R & _ & _ & CapH & RateH & _ & _ & PosH & TopH & _).
  rewrite Run3 in R. inversion R; subst h' w3'. clear R.
  eexists; eexists. split; [exact Run|].
  cbn [daily_bucket hourly_bucket last_request_time region_delays].
  change (now (log "rate_limit_acquired" w3)) with (now w3).
  split; [unfold positive_rates; cbn [daily_bucket hourly_bucket];
          rewrite RateD, RateH; split; assumption|].
  split; [apply lags_ok_log; exact Hl3|].
  split; [exact CapD|]. split; [exact CapH|].
  split; [reflexivity|]. split; [reflexivity|].
  split; [lra|]. split; [lra|].
  split; (split; [|rewrite ?CapD, ?CapH]); auto with zarith.
Qed.

Lemma total_min_delay_table (st : Settings) (l l' : RateLimiter)
    (regions : list string) :
  region_delays l' = region_delays l ->
  total_min_delay st l' regions = total_min_delay st l regions.
Proof.
  intro E. unfold total_min_delay, min_delay_of. rewrite E. reflexivity.
Qed.

(** A caller's sequence of [acquire] calls. *)
Lemma acquire_each_spec (st : Settings) (regions : list string) :
  forall (l : RateLimiter) (w : World),
    positive_rates l -> lags_ok w ->
    (1 <= capacity (daily_bucket l))%Z -> (1 <= capacity (hourly_bucket l))%Z ->
    bucket_ok (daily_bucket l) -> bucket_ok (hourly_bucket l) ->
    last_request_time l <= now w ->
    exists l' w',
      acquire_each st regions l w = Ok (l', w') /\
      bucket_ok (daily_bucket l') /\ bucket_ok (hourly_bucket l') /\
      last_request_time l + inject_Z (total_min_delay st l regions) <= now w'.
Proof.
  induction regions as [|region rest IH]; intros l w Hr Hl Cd Ch Bd Bh Past.
  - exists l, w. simpl. repeat split; try apply Bd; try apply Bh.
    change (inject_Z 0) with 0. lra.
  - destruct (acquire_step st region l w Hr Hl Cd Ch)
      as (l1 & w1 & Run1 & Hr1 & Hl1 & Cd1 & Ch1 & Tab & Last & Gap & _ & Bd1 & Bh1).
    rewrite <- Cd1 in Cd. rewrite <- Ch1 in Ch.
    assert (Past1 : last_request_time l1 <= now w1) by (rewrite Last; lra).
    destruct (IH l1 w1 Hr1 Hl1 Cd Ch Bd1 Bh1 Past1)
      as (l' & w' & Run & Bd' & Bh' & Time).
    exists l', w'. cbn [acquire_each]. rewrite Run1. cbn [bind].
    split; [exact Run|]. split; [exact Bd'|]. split; [exact Bh'|].
    rewrite (total_min_delay_table st l l1 rest Tab) in Time.
    cbn [total_min_delay fold_right].
    fold (total_min_delay st l rest).
    rewrite inject_Z_plus. rewrite Last in Time. lra.
Qed.

Lemma init_positive_rates (st : Settings) (w : World) :
  (1 <= linkedin_daily_limit st)%Z -> (1 <= linkedin_hourly_limit st)%Z ->
  positive_rates (RateLimiter_init st w).
Proof.
  intros Hd Hh. unfold positive_rates, RateLimiter_init.
  cbn [daily_bucket hourly_bucket TokenBucket_init refill_rate].
  assert (P : forall z k : Z, (1 <= z)%Z -> (0 < k)%Z ->
                              0 < inject_Z z / inject_Z k).
  { intros z k Hz Hk. apply Qlt_shift_div_l.
    - change 0 with (inject_Z 0). rewrite <- Zlt_Qlt. exact Hk.
    - assert (0 < inject_Z z)
        by (change 0 with (inject_Z 0); rewrite <- Zlt_Qlt; lia).
      lra. }
  split; apply P; (assumption || reflexivity).
Qed.

(** X4: the limiter serves every request.  On a limiter built from settings
    whose daily and hourly limits are at least 1, any sequence of [acquire]
    calls returns, however many they are, and leaves both buckets between 0
    and their capacity. *)
Theorem limiter_serves_every_request (st : Settings) (regions : list string)
    (w0 w : World) :
  (1 <= linkedin_daily_limit st)%Z -> (1 <= linkedin_hourly_limit st)%Z ->
  lags_ok w -> now w0 <= now w ->
  exists l' w',
    acquire_each st regions (RateLimiter_init st w0) w = Ok (l', w') /\
    bucket_ok (daily_bucket l') /\ bucket_ok (hourly_bucket l').
Proof.
  intros Hd Hh Hl Later.
  assert (Full : forall z : Z, (1 <= z)%Z ->
                   forall r, bucket_ok (TokenBucket_init z r w0)).
  { intros z Hz r. unfold bucket_ok. cbn [TokenBucket_init tokens capacity].
    split; [|apply Qle_refl].
    change 0 with (inject_Z 0). rewrite <- Zle_Qle. lia. }
  destruct (acquire_each_spec st regions (RateLimiter_init st w0) w)
    as (l' & w' & Run & Bd & Bh & _);
    try assumption; try (apply init_positive_rates; assumption);
    try (apply Full; assumption).
  exists l', w'. auto.
Qed.

(** Fifty requests in a row on the limiter of the defaults: more than the
    daily budget of 40. *)
Lemma limiter_serves_every_request_witness :
  exists l' w',
    acquire_each settings (repeat "Far_East" 50)
                 (RateLimiter_init settings (mkWorld 0 [] []))
                 (mkWorld 0 [] []) = Ok (l', w') /\
    bucket_ok (daily_bucket l') /\ bucket_ok (hourly_bucket l').
Proof.
  apply (limiter_serves_every_request settings (repeat "Far_East" 50)
           (mkWorld 0 [] []) (mkWorld 0 [] [])).
  - simpl; lia.
  - simpl; lia.
  - constructor.
  - apply Qle_refl.
Defined.

(** X5: requests are spaced.  A sequence of [acquire] calls made one after
    the other returns no earlier than the sum of the minimum delays of its
    regions after the last request before it. *)
Theorem acquire_each_takes_time (st : Settings) (regions : list string)
    (w0 w : World) :
  (1 <= linkedin_daily_limit st)%Z -> (1 <= linkedin_hourly_limit st)%Z ->
  lags_ok w -> now w0 <= now w ->
  exists l' w',
    acquire_each st regions (RateLimiter_init st w0) w = Ok (l', w') /\
    now w0 + inject_Z (total_min_delay st (RateLimiter_init st w0) regions)
      <= now w'.
Proof.
  intros Hd Hh Hl Later.
  assert (Full : forall z : Z, (1 <= z)%Z ->
                   forall r, bucket_ok (TokenBucket_init z r w0)).
  { intros z Hz r. unfold bucket_ok. cbn [TokenBucket_init tokens capacity].
    split; [|apply Qle_refl].
    change 0 with (inject_Z 0). rewrite <- Zle_Qle. lia. }
  destruct (acquire_each_spec st regions (RateLimiter_init st w0) w)
    as (l' & w' & Run & _ & _ & Time);
    try assumption; try (apply init_positive_rates; assumption);
    try (apply Full; assumption).
  exists l', w'. split; [exact Run|exact Time].
Qed.

(** Three requests on the limiter of the defaults take at least
    15 + 12 + 10 seconds. *)
Lemma acquire_each_takes_time_witness :
  exists l' w',
    acquire_each settings ["Far_East"; "Eastern_Europe"; "Nordics"]
                 (RateLimiter_init settings (mkWorld 0 [] []))
                 (mkWorld 0 [] []) = Ok (l', w') /\
    0 + inject_Z 37 <= now w'.
Proof.
  apply (acquire_each_takes_time settings
           ["Far_East"; "Eastern_Europe"; "Nordics"]
           (mkWorld 0 [] []) (mkWorld 0 [] [])).
  - simpl; lia.
  - simpl; lia.
  - constructor.
  - apply Qle_refl.
Defined.

(** ** HunterAgentV2, continued *)

(** X6: a country dictionary without the key [name] makes
    [execute_protocol] raise [KeyError] for a registered protocol although
    its query can be built (the template is filled through [get], the log
    line indexes the dictionary); the error is raised before the search is
    called and leaves the process unchanged. *)
Theorem execute_protocol_missing_name {X : Type}
    (registry : PyDict (PyDict string)) (search : SearchFn X)
    (protocol_name query : string) (country : PyDict string) (p : Process X) :
  build_query registry protocol_name country = Ok query ->
  dict_lookup country "name" = None ->
  execute_protocol registry search protocol_name country p
  = (Raise (KeyError "name"), p).
Proof.
  intros Q N. unfold execute_protocol, and_then, lift, dict_item.
  rewrite Q, N. reflexivity.
Qed.

(** A country given by its code only. *)
Lemma execute_protocol_missing_name_witness :
  execute_protocol OSINT_PROTOCOLS mock_search "portfolio_match"
                   [("code", "pl")] (start settings tt)
  = (Raise (KeyError "name"), start settings tt).
Proof.
  apply (execute_protocol_missing_name OSINT_PROTOCOLS mock_search
           "portfolio_match"
           ("filetype:pdf " ++ quoted "wine portfolio" ++ " ("
            ++ quoted "Israel" ++ " OR " ++ quoted "Kosher" ++ ") site:.pl")).
  - reflexivity.
  - reflexivity.
Defined.

Section SweepTime.
Context {X : Type}.
Variable registry : PyDict (PyDict string).
Variable search : SearchFn X.
Hypothesis Calm : never_interrupted search.

Lemma execute_protocol_clock (protocol_name : string)
    (country_info : PyDict string) (p : Process X) :
  now (world (snd (execute_protocol registry search protocol_name
                                    country_info p))) = now (world p) /\
  lags (world (snd (execute_protocol registry search protocol_name
                                     country_info p))) = lags (world p).
Proof.
  unfold execute_protocol, and_then, lift, try_except, logging, on_world,
    call_search, ret.
  destruct (build_query registry protocol_name country_info);
    [|split; reflexivity].
  destruct (dict_item country_info "name"); [|split; reflexivity].
  cbn [world services linkedin_rate_limiter].
  destruct (search a (services p)) as [x1 [[text|message]|name]];
    split; reflexivity.
Qed.

Lemma for_protocols_clock (country_info : PyDict string) :
  forall (names : list string) (acc : list (PyDict string)) (p : Process X),
    country_ok registry names country_info = true ->
    lags_ok (world p) ->
    let p' := snd (for_protocols registry search country_info names acc p) in
    lags_ok (world p') /\
    now (world p) + 2 * inject_Z (Z.of_nat (List.length names))
      <= now (world p').
Proof.
  induction names as [|pn names IH]; intros acc p Hok Hl; cbn zeta.
  - cbn [for_protocols ret snd List.length Z.of_nat].
    split; [exact Hl|]. change (inject_Z 0) with 0. lra.
  - cbn [country_ok forallb] in Hok. apply andb_true_iff in Hok.
    destruct Hok as [Hj Hrest].
    destruct (job_of registry country_info pn) as [j|] eqn:J; [|discriminate].
    destruct (execute_protocol_spec registry search Calm pn country_info j p J)
      as (w1 & Run1).
    destruct (execute_protocol_clock pn country_info p) as [N1 L1].
    rewrite Run1 in N1, L1. cbn [snd world] in N1, L1.
    set (p1 := mkProcess (sleep 2 w1) (linkedin_rate_limiter p)
                         (fst (as_service search (job_query j) (services p)))).
    assert (Step : for_protocols registry search country_info (pn :: names) acc p
                   = for_protocols registry search country_info names
                       (acc ++ [wrap j (snd (as_service search (job_query j)
                                                        (services p)))])
                       p1).
    { cbn [for_protocols]. unfold and_then at 1. rewrite Run1.
      unfold and_then at 1. reflexivity. }
    rewrite Step.
    assert (Hl1 : lags_ok w1) by (unfold lags_ok; rewrite L1; exact Hl).
    destruct (sleep_at_least 2 w1 Hl1) as [S1 _].
    destruct (IH (acc ++ [wrap j (snd (as_service search (job_query j)
                                                  (services p)))])%list
                 p1 Hrest (lags_ok_sleep 2 w1 Hl1)) as [Hl' T].
    cbn [world p1] in T.
    split; [exact Hl'|].
    cbn [List.length]. rewrite Nat2Z.inj_succ, <- Z.add_1_r, inject_Z_plus.
    change (inject_Z 1) with 1. rewrite <- N1. lra.
Qed.

Lemma for_countries_clock :
  forall (countries : PyDict (PyDict string)) (acc : list (PyDict string))
         (p : Process X),
    tables_ok countries registry = true ->
    lags_ok (world p) ->
    let p' := snd (for_countries registry search countries acc p) in
    lags_ok (world p') /\
    now (world p)
      + 2 * inject_Z (Z.of_nat (List.length countries * List.length registry))
      <= now (world p').
Proof.
  induction countries as [|[country_name country_info] rest IH];
    intros acc p Hok Hl; cbn zeta.
  - cbn [for_countries ret snd List.length Nat.mul Z.of_nat].
    split; [exact Hl|]. change (inject_Z 0) with 0. lra.
  - unfold tables_ok in Hok. cbn [forallb snd] in Hok.
    apply andb_true_iff in Hok. destruct Hok as [Hc Hrest].
    fold (tables_ok rest registry) in Hrest.
    set (p0 := mkProcess (log "country_search_starting" (world p))
                         (linkedin_rate_limiter p) (services p)).
    destruct (for_protocols_spec registry search Calm country_info
                (dict_keys registry) acc p0 Hc) as (w1 & Run1).
    cbn zeta in Run1.
    destruct (for_protocols_clock country_info (dict_keys registry) acc p0 Hc)
      as [Hl1 T1]; [apply lags_ok_log; exact Hl|].
    rewrite Run1 in Hl1, T1. cbn [snd world p0] in Hl1, T1.
    change (now (log "country_search_starting" (world p))) with (now (world p)) in T1.
    match type of Run1 with
    | _ = (Ok ?a, ?q) =>
        assert (Step : for_countries registry search
                         ((country_name, country_info) :: rest) acc p
                       = for_countries registry search rest a
                           (mkProcess (log "country_search_complete" w1)
                                      (linkedin_rate_limiter p) (services q)));
          [cbn [for_countries]; unfold and_then at 1;
           cbn [logging on_world world linkedin_rate_limiter services];
           fold p0; unfold and_then at 1; rewrite Run1;
           unfold and_then at 1; reflexivity|];
        rewrite Step;
        destruct (IH a (mkProcess (log "country_search_complete" w1)
                                  (linkedin_rate_limiter p) (services q)) Hrest)
          as [Hl' T]; [cbn [world]; apply lags_ok_log; exact Hl1|]
    end.
    cbn [world] in T.
    change (now (log "country_search_complete" w1)) with (now w1) in T.
    split; [exact Hl'|].
    unfold dict_keys in T1. rewrite length_map in T1.
    cbn [List.length]. rewrite Nat.mul_succ_l, Nat2Z.inj_add, inject_Z_plus.
    lra.
Qed.
End SweepTime.

(** X7: a sweep over E entities and P protocols whose searches return or
    raise an [Exception] lasts at least 2 * E * P seconds: the fixed delay
    follows every pair, the last one included. *)
Theorem sweep_takes_time {X : Type}
    (countries registry : PyDict (PyDict string)) (search : SearchFn X)
    (p : Process X) :
  tables_ok countries registry = true -> lags_ok (world p) ->
  never_interrupted search ->
  exists results p',
    sweep countries registry search p = (Ok results, p') /\
    now (world p)
      + 2 * inject_Z (Z.of_nat (List.length countries * List.length registry))
      <= now (world p').
Proof.
  intros Hok Hl Calm.
  destruct (sweep_spec registry search Calm countries p Hok) as (w' & Run).
  cbn zeta in Run.
  destruct (for_countries_clock registry search Calm countries [] p Hok Hl)
    as [_ T].
  fold (sweep countries registry search p) in T. rewrite Run in T.
  eexists; eexists. split; [exact Run|exact T].
Qed.

(** The module's own tables: 20 pairs, 40 seconds. *)
Lemma sweep_takes_time_witness :
  exists results p',
    search_all_countries mock_search (start settings tt) = (Ok results, p') /\
    0 + 2 * inject_Z 20 <= now (world p').
Proof.
  apply (sweep_takes_time APPROVED_COUNTRIES OSINT_PROTOCOLS mock_search
           (start settings tt)).
  - vm_compute. reflexivity.
  - constructor.
  - intros query x. reflexivity.
Defined.

Lemma parse_loop_logs {X : Type} (generate_text : Service X)
    (search_results : list (PyDict string)) :
  forall (leads_created : list string) (p : Process X),
    exists p',
      parse_loop generate_text search_results leads_created p
      = (Ok leads_created, p') /\
      List.length (filter is_lead_log (trace (world p'))) =
        (List.length (filter is_lead_log (trace (world p)))
         + List.length (filter (fun r => negb (dict_contains r "error"))
                               search_results))%nat /\
      (forallb (fun r => dict_contains r "error") search_results = true ->
       p' = p).
Proof.
  induction search_results as [|r rest IH]; intros leads p.
  - exists p. cbn. split; [reflexivity|]. split; [lia|reflexivity].
  - cbn [parse_loop filter forallb].
    destruct (dict_contains r "error") eqn:E; cbn [negb andb].
    + exact (IH leads p).
    + unfold and_then at 1.
      match goal with
      | |- context [try_except ?body ?handler p] =>
          assert (Step : exists u p1,
                     try_except body handler p = (Ok u, p1) /\
                     List.length (filter is_lead_log (trace (world p1))) =
                       S (List.length (filter is_lead_log (trace (world p)))))
      end.
      { unfold try_except, and_then, lift, call_gemini, logging, on_world.
        destruct (lead_prompt r) as [prompt|e] eqn:Prompt.
        - destruct (generate_text prompt (services p)) as [x1 [text|message]];
            cbn [is_exception];
            eexists; eexists; (split; [reflexivity|]);
            cbn [world log trace]; rewrite filter_app, length_app;
            cbn; lia.
        - rewrite (lead_prompt_error r e Prompt).
          eexists; eexists; (split; [reflexivity|]).
          cbn [world log trace]. rewrite filter_app, length_app. cbn. lia. }
      destruct Step as (u & p1 & Step & Count). rewrite Step.
      destruct (IH leads p1) as (p' & Run & Count' & _).
      exists p'. split; [exact Run|]. split; [|discriminate].
      rewrite Count', Count. cbn [List.length]. lia.
Qed.

(** X8: [parse_results_to_leads] ends every search result that has no
    [error] key with exactly one log line, [lead_extracted] or
    [lead_extraction_failed], whatever Gemini answers and whatever keys the
    result lacks; results with an [error] key are passed over, and a list of
    such results leaves the process untouched. *)
Theorem parse_results_one_line_each {X : Type} (generate_text : Service X)
    (search_results : list (PyDict string)) (campaign_id : string)
    (p : Process X) :
  exists p',
    parse_results_to_leads generate_text search_results campaign_id p
    = (Ok [], p') /\
    List.length (filter is_lead_log (trace (world p'))) =
      (List.length (filter is_lead_log (trace (world p)))
       + List.length (filter (fun r => negb (dict_contains r "error"))
                             search_results))%nat /\
    (forallb (fun r => dict_contains r "error") search_results = true ->
     p' = p).
Proof.
  exact (parse_loop_logs generate_text search_results [] p).
Qed.

Lemma service_run_all_raise {X : Type} (search : Service X)
    (queries : list string) :
  (forall q x, is_raise (snd (search q x)) = true) ->
  forall x : X, forallb is_raise (fst (service_run search queries x)) = true.
Proof.
  intro Always. induction queries as [|q qs IH]; intro x; [reflexivity|].
  cbn [service_run]. specialize (Always q x).
  destruct (search q x) as [x1 o]. specialize (IH x1).
  destruct (service_run search qs x1) as [os x2].
  cbn [fst snd forallb] in *. rewrite Always, IH. reflexivity.
Qed.

Lemma wrap_all_failed (jobs : list Job) :
  forall outs : list Outcome,
    forallb is_raise outs = true ->
    forallb (fun r => dict_contains r "error") (wrap_all jobs outs) = true.
Proof.
  unfold wrap_all.
  induction jobs as [|j jobs IH]; intros [|o outs] F; try reflexivity.
  cbn [forallb] in F. apply andb_true_iff in F. destruct F as [Fo Frest].
  cbn [combine map forallb fst snd]. rewrite (IH outs Frest).
  destruct o; [discriminate|reflexivity].
Qed.

(** X9: when every search of a sweep raises an [Exception], handing the sweep's results to
    [parse_results_to_leads] does nothing: Gemini is not called, nothing is
    logged, and the process is left as the sweep left it. *)
Theorem parse_after_failed_sweep {X : Type}
    (countries registry : PyDict (PyDict string))
    (search : SearchFn X) (generate_text : Service X) (campaign_id : string)
    (p : Process X) :
  tables_ok countries registry = true ->
  (forall q x, search_raises (snd (search q x)) = true) ->
  exists results p',
    sweep countries registry search p = (Ok results, p') /\
    parse_results_to_leads generate_text results campaign_id p' = (Ok [], p').
Proof.
  intros Hok Always.
  assert (Calm : never_interrupted search).
  { intros q x. specialize (Always q x).
    destruct (snd (search q x)) as [o|name]; [reflexivity|discriminate]. }
  destruct (sweep_spec registry search Calm countries p Hok) as (w' & Run).
  cbn zeta in Run.
  eexists; eexists. split; [exact Run|].
  match goal with
  | |- parse_results_to_leads _ ?rs _ ?q = _ =>
      destruct (parse_loop_logs generate_text rs [] q) as (p' & Run' & _ & Same)
  end.
  unfold parse_results_to_leads. rewrite Run'.
  rewrite Same; [reflexivity|].
  apply wrap_all_failed, service_run_all_raise.
  intros q x. specialize (Always q x). unfold as_service.
  destruct (search q x) as [x1 [[text|message]|name]];
    cbn [snd search_raises] in *; try discriminate; reflexivity.
Qed.

(** The module's own tables with a backend that is down, and a Gemini
    service that would answer. *)
Lemma parse_after_failed_sweep_witness :
  exists results p',
    search_all_countries (fun (_ : string) (x : unit) => (x, Ordinary (Raises "down")))
                         (start settings tt) = (Ok results, p') /\
    parse_results_to_leads (fun (_ : string) (x : unit) => (x, Returns "{}"))
                           results "campaign-1" p' = (Ok [], p').
Proof.
  apply (parse_after_failed_sweep APPROVED_COUNTRIES OSINT_PROTOCOLS
           (fun (_ : string) (x : unit) => (x, Ordinary (Raises "down")))
           (fun (_ : string) (x : unit) => (x, Returns "{}"))
           "campaign-1" (start settings tt)).
  - vm_compute. reflexivity.
  - reflexivity.
Defined.

(** ** The extractor and the live script, continued *)

Lemma str_forallb_app (f : ascii -> bool) (s1 s2 : string) :
  str_forallb f (s1 ++ s2) = str_forallb f s1 && str_forallb f s2.
Proof.
  induction s1 as [|c s1 IH]; simpl; [reflexivity|].
  rewrite IH, andb_assoc. reflexivity.
Qed.

Lemma take_while_all (f : ascii -> bool) (s : string) :
  str_forallb f (take_while f s) = true.
Proof.
  induction s as [|c s IH]; simpl; [reflexivity|].
  destruct (f c) eqn:E; simpl; [rewrite E, IH|]; reflexivity.
Qed.

Lemma str_length_app (s1 s2 : string) :
  String.length (s1 ++ s2) = (String.length s1 + String.length s2)%nat.
Proof. induction s1 as [|c s1 IH]; simpl; [reflexivity|rewrite IH; reflexivity]. Qed.

Lemma match_scheme_clean (scheme s u : string) :
  str_forallb url_char scheme = true ->
  match_scheme scheme s = Some u ->
  str_forallb url_char u = true /\
  (String.length scheme + 1 <= String.length u)%nat.
Proof.
  intros Hs. unfold match_scheme.
  destruct (String.prefix scheme s); [|discriminate].
  pose proof (take_while_all url_char (str_drop (String.length scheme) s)) as A.
  destruct (take_while url_char (str_drop (String.length scheme) s))
    as [|c run]; [discriminate|].
  intro E. inversion E; subst u. split.
  - rewrite str_forallb_app, Hs, A. reflexivity.
  - rewrite str_length_app. simpl. lia.
Qed.

Lemma findall_clean (s : string) :
  forall (skip : nat) (u : string),
    In u (findall_from skip s) ->
    str_forallb url_char u = true /\ (8 <= String.length u)%nat.
Proof.
  induction s as [|c s IH]; intros skip u; simpl; [contradiction|].
  destruct skip as [|k]; [|apply IH].
  destruct (match_url (String c s)) as [u'|] eqn:M; [|apply IH].
  intros [E|I]; [subst u'|exact (IH _ _ I)].
  unfold match_url in M.
  destruct (match_scheme "https://" (String c s)) as [u1|] eqn:M1.
  - inversion M; subst u1.
    destruct (match_scheme_clean "https://" _ _ eq_refl M1) as [A B].
    split; [exact A|]. simpl in B. lia.
  - destruct (match_scheme_clean "http://" _ _ eq_refl M) as [A B].
    split; [exact A|]. simpl in B. lia.
Qed.

(** X10: every URL that [extract_urls_from_text] returns begins with
    [http://] or [https://], is at least 8 characters long, and holds no
    whitespace, quote, angle bracket, brace, bracket, bar, backslash, caret
    or backquote. *)
Theorem extracted_urls_clean (text u : string) :
  In u (extract_urls_from_text text) ->
  has_scheme u /\ str_forallb url_char u = true /\ (8 <= String.length u)%nat.
Proof.
  intro I. split.
  - exact (findall_shape text 0 u I).
  - exact (findall_clean text 0 u I).
Qed.

(** A URL inside angle brackets and followed by a quote. *)
Lemma extracted_urls_clean_witness :
  has_scheme "http://www.a-b.com" /\
  str_forallb url_char "http://www.a-b.com" = true /\
  (8 <= String.length "http://www.a-b.com")%nat.
Proof.
  apply (extracted_urls_clean
           ("see <http://www.a-b.com> or " ++ quoted "https://c.d/e")).
  vm_compute. left; reflexivity.
Defined.

(** The characters of a string. *)
Lemma str_split_chars (sep : ascii) (s : string) :
  forall (piece : string) (c : ascii),
    In piece (str_split sep s) ->
    In c (list_ascii_of_string piece) ->
    c <> sep /\ In c (list_ascii_of_string s).
Proof.
  induction s as [|a s IH]; intros piece c; simpl.
  - intros [E|[]]; subst piece. simpl. contradiction.
  - destruct (Ascii.eqb_spec a sep) as [E|N].
    + intros [P|P] I.
      * subst piece. simpl in I. contradiction.
      * destruct (IH piece c P I) as [A B]. split; [exact A|right; exact B].
    + destruct (str_split sep s) as [|h t] eqn:S.
      * exfalso; exact (str_split_not_nil _ _ S).
      * intros [P|P] I.
        -- subst piece. simpl in I. destruct I as [I|I].
           ++ subst c. split; [exact N|left; reflexivity].
           ++ destruct (IH h c (or_introl eq_refl) I) as [A B].
              split; [exact A|right; exact B].
        -- destruct (IH piece c (or_intror P) I) as [A B].
           split; [exact A|right; exact B].
Qed.

Lemma replace_from_chars (old : string) (s : string) :
  forall (skip : nat) (c : ascii),
    In c (list_ascii_of_string (replace_from old "" skip s)) ->
    In c (list_ascii_of_string s).
Proof.
  induction s as [|a s IH]; intros skip c; cbn [replace_from]; [auto|].
  destruct skip as [|k].
  - destruct (String.prefix old (String a s)); cbn [append list_ascii_of_string].
    + intro I. right. exact (IH _ _ I).
    + intros [E|I]; [left; exact E|right; exact (IH _ _ I)].
  - intro I. right. exact (IH _ _ I).
Qed.

Lemma in_str_app (c : ascii) (s1 s2 : string) :
  In c (list_ascii_of_string (s1 ++ s2)) ->
  In c (list_ascii_of_string s1) \/ In c (list_ascii_of_string s2).
Proof.
  induction s1 as [|a s1 IH]; cbn [append list_ascii_of_string]; [auto|].
  intros [E|I]; [left; left; exact E|].
  destruct (IH I) as [I1|I2]; [left; right; exact I1|right; exact I2].
Qed.

(** Changing the case of a character never yields a dot or a slash. *)
Lemma cased_not_punctuation (a c : ascii) :
  c = "."%char \/ c = "/"%char ->
  In c (list_ascii_of_string (String (to_lower a) "")) \/
  In c (list_ascii_of_string (to_title a)) ->
  c = a.
Proof.
  intros Hc H.
  destruct a as [b0 b1 b2 b3 b4 b5 b6 b7].
  destruct b0, b1, b2, b3, b4, b5, b6, b7;
    vm_compute in H;
    destruct Hc; subst c;
    try reflexivity;
    exfalso;
    repeat match goal with
           | H : _ \/ _ |- _ => destruct H
           | H : False |- _ => exact H
           | H : _ = _ |- _ => discriminate H
           end.
Qed.

Lemma title_from_chars (s : string) :
  forall (prev : bool) (c : ascii),
    c = "."%char \/ c = "/"%char ->
    In c (list_ascii_of_string (title_from prev s)) ->
    In c (list_ascii_of_string s).
Proof.
  induction s as [|a s IH]; intros prev c Hc;
    cbn [title_from list_ascii_of_string]; [auto|].
  intro I. apply in_str_app in I. destruct I as [I|I].
  - left. symmetry. apply (cased_not_punctuation a c Hc).
    destruct prev; [left|right]; exact I.
  - right. exact (IH _ _ Hc I).
Qed.

(** X11: the company name [extract_company_info] returns never holds a dot
    or a slash: it is [Unknown] or the title-cased piece of the first URL
    between its second slash pair and the first dot or slash after it. *)
Theorem company_name_has_no_dot_or_slash (text country : string) :
  exists info company_name,
    extract_company_info text country = Ok info /\
    dict_lookup info "company_name" = Some company_name /\
    ~ In "."%char (list_ascii_of_string company_name) /\
    ~ In "/"%char (list_ascii_of_string company_name).
Proof.
  unfold extract_company_info.
  destruct (extract_urls_from_text text) as [|url0 urls] eqn:U.
  - eexists; eexists. split; [reflexivity|]. split; [reflexivity|].
    split; simpl; intuition discriminate.
  - assert (Sh : has_scheme url0).
    { apply (findall_shape text 0). unfold extract_urls_from_text in U.
      rewrite U. left; reflexivity. }
    destruct (authority_exists url0 Sh) as [authority A].
    assert (A' : In authority (str_split "/" url0)).
    { unfold list_item in A.
      destruct (nth_error (str_split "/" url0) 2) as [a|] eqn:N; [|discriminate].
      inversion A; subst a. exact (nth_error_In _ _ N). }
    rewrite A. cbn [bind].
    destruct (str_split "." (str_replace "www." "" authority))
      as [|label labels] eqn:L;
      [exfalso; exact (str_split_not_nil _ _ L)|].
    unfold list_item at 1. cbn [nth_error bind].
    eexists; eexists. split; [reflexivity|]. split; [reflexivity|].
    assert (Lab : In label (str_split "." (str_replace "www." "" authority)))
      by (rewrite L; left; reflexivity).
    split; intro I; unfold str_title in I;
      apply title_from_chars in I; auto;
      destruct (str_split_chars _ _ _ _ Lab I) as [NotDot InRep]; [congruence|].
    unfold str_replace in InRep. apply replace_from_chars in InRep.
    destruct (str_split_chars _ _ _ _ A' InRep) as [NotSlash _]. congruence.
Qed.

(** X12: for a country that has both keys, the live script builds the query
    the agent builds; a country without [code] makes the live script raise
    [KeyError] where the agent fills in the empty string. *)
Theorem live_query_agrees (registry : PyDict (PyDict string))
    (protocol_name : string) (protocol_info country_info : PyDict string) :
  dict_lookup registry protocol_name = Some protocol_info ->
  (forall code name,
     dict_lookup country_info "code" = Some code ->
     dict_lookup country_info "name" = Some name ->
     live_query protocol_info country_info
     = build_query registry protocol_name country_info) /\
  (forall template,
     dict_lookup protocol_info "query_template" = Some template ->
     dict_lookup country_info "code" = None ->
     live_query protocol_info country_info = Raise (KeyError "code") /\
     build_query registry protocol_name country_info
     = str_format template
         [("country_code", ""); ("country_name", dict_get country_info "name" "")]).
Proof.
  intro P. split.
  - intros code name C N.
    unfold live_query, build_query, dict_item, dict_get.
    rewrite P, C, N. reflexivity.
  - intros template T C.
    unfold live_query, build_query, dict_item, dict_get.
    rewrite P, T, C. cbn [bind]. rewrite T. split; reflexivity.
Qed.

(** The module's registry and Poland. *)
Lemma live_query_agrees_witness :
  live_query (dict_get OSINT_PROTOCOLS "competitor_piggyback" [])
             [("code", "pl"); ("name", "Poland")]
  = build_query OSINT_PROTOCOLS "competitor_piggyback"
                [("code", "pl"); ("name", "Poland")].
Proof.
  destruct (live_query_agrees OSINT_PROTOCOLS "competitor_piggyback"
              (dict_get OSINT_PROTOCOLS "competitor_piggyback" [])
              [("code", "pl"); ("name", "Poland")]) as [Same _].
  - reflexivity.
  - apply (Same "pl" "Poland"); reflexivity.
Defined.

(** ** Settings.target_regions_list *)

Lemma str_split_length (sep : ascii) (s : string) :
  List.length (str_split sep s) = S (count_char sep s).
Proof.
  induction s as [|c s IH]; simpl; [reflexivity|].
  destruct (Ascii.eqb c sep); simpl; [rewrite IH; reflexivity|].
  destruct (str_split sep s) as [|h t]; simpl in *; [discriminate|exact IH].
Qed.

Lemma str_rstrip_idempotent (s : string) :
  str_rstrip (str_rstrip s) = str_rstrip s.
Proof.
  induction s as [|c s IH]; [reflexivity|].
  cbn [str_rstrip].
  destruct (str_rstrip s) as [|c' r] eqn:R.
  - destruct (is_space c) eqn:Sp; [reflexivity|].
    cbn [str_rstrip]. rewrite Sp. reflexivity.
  - cbn [str_rstrip] in *. rewrite IH. reflexivity.
Qed.

Lemma str_lstrip_head (s : string) :
  match str_lstrip s with
  | "" => True
  | String c _ => is_space c = false
  end.
Proof.
  induction s as [|c s IH]; simpl; [exact I|].
  destruct (is_space c) eqn:Sp; [exact IH|exact Sp].
Qed.

Lemma str_lstrip_rstrip (s : string) :
  match s with
  | "" => True
  | String c _ => is_space c = false
  end ->
  str_lstrip (str_rstrip s) = str_rstrip s.
Proof.
  destruct s as [|c s]; [reflexivity|]. intro Sp.
  cbn [str_rstrip]. destruct (str_rstrip s); rewrite ?Sp;
    cbn [str_lstrip]; rewrite Sp; reflexivity.
Qed.

Lemma str_strip_idempotent (s : string) : str_strip (str_strip s) = str_strip s.
Proof.
  unfold str_strip.
  rewrite (str_lstrip_rstrip _ (str_lstrip_head s)).
  apply str_rstrip_idempotent.
Qed.

(** X13: [target_regions_list] has one entry more than the setting has
    commas (one entry for the empty setting), every entry is free of
    leading and trailing whitespace, and the default setting gives the
    seven regions of the configuration. *)
Theorem target_regions_list_shape (target_regions : string) :
  List.length (target_regions_list target_regions)
    = S (count_char "," target_regions) /\
  Forall (fun region => str_strip region = region)
         (target_regions_list target_regions) /\
  target_regions_list default_target_regions =
    ["Poland"; "Czech Republic"; "Romania"; "Japan"; "South Korea";
     "Singapore"; "Hong Kong"].
Proof.
  unfold target_regions_list. split; [|split].
  - rewrite length_map. apply str_split_length.
  - apply Forall_map. apply Forall_forall. intros piece _.
    apply str_strip_idempotent.
  - reflexivity.
Qed.

(** ** Validators *)

Lemma str_filter_all (f : ascii -> bool) (s : string) :
  str_forallb f (str_filter f s) = true.
Proof.
  induction s as [|c s IH]; simpl; [reflexivity|].
  destruct (f c) eqn:E; simpl; [rewrite E|]; exact IH.
Qed.

Lemma str_filter_fix (f : ascii -> bool) (s : string) :
  str_forallb f s = true -> str_filter f s = s.
Proof.
  induction s as [|c s IH]; simpl; [reflexivity|].
  intro H. apply andb_true_iff in H. destruct H as [Hc Hs].
  rewrite Hc, (IH Hs). reflexivity.
Qed.

Lemma str_filter_length (f : ascii -> bool) (s : string) :
  (String.length (str_filter f s) <= String.length s)%nat.
Proof.
  induction s as [|c s IH]; simpl; [lia|].
  destruct (f c); simpl; lia.
Qed.

(** X14: [sanitize_phone] keeps the digits and plus signs of its argument
    in their order and nothing else: its result holds only such characters
    and is no longer than the argument, a number that is already clean is
    returned as it is, and sanitizing twice is sanitizing once. *)
Theorem sanitize_phone_idempotent (phone : string) :
  str_forallb phone_char (sanitize_phone phone) = true /\
  (String.length (sanitize_phone phone) <= String.length phone)%nat /\
  (str_forallb phone_char phone = true -> sanitize_phone phone = phone) /\
  sanitize_phone (sanitize_phone phone) = sanitize_phone phone.
Proof.
  unfold sanitize_phone.
  split; [apply str_filter_all|].
  split; [apply str_filter_length|].
  split; [apply str_filter_fix|].
  apply str_filter_fix, str_filter_all.
Qed.

Lemma str_split_ws_nonempty (s : string) :
  Forall (fun word => word <> "") (str_split_ws s).
Proof.
  induction s as [|c s IH]; simpl; [constructor|].
  destruct (is_space c); [exact IH|].
  destruct s as [|c' s']; [repeat constructor; discriminate|].
  destruct (is_space c').
  - constructor; [discriminate|exact IH].
  - destruct (str_split_ws (String c' s')) as [|h t].
    + repeat constructor; discriminate.
    + inversion IH; subst. constructor; [discriminate|assumption].
Qed.

Lemma str_append_assoc (s1 s2 s3 : string) :
  (s1 ++ s2) ++ s3 = s1 ++ s2 ++ s3.
Proof.
  induction s1 as [|c s1 IH]; simpl; [reflexivity|rewrite IH; reflexivity].
Qed.

(** X15: [infer_email_pattern] never raises.  Its list begins with
    [info@domain] and [contact@domain]; five further addresses follow
    exactly when the lower-cased name has at least two words, and each of
    them ends with [@domain]. *)
Theorem infer_email_pattern_shape (domain name : string) :
  exists extra,
    infer_email_pattern domain name
    = Ok (("info@" ++ domain) :: ("contact@" ++ domain) :: extra) /\
    (List.length extra = 5%nat /\
     (2 <= List.length (str_split_ws (str_lower name)))%nat
     \/
     extra = [] /\
     (List.length (str_split_ws (str_lower name)) < 2)%nat) /\
    Forall (fun address => exists local, address = local ++ "@" ++ domain)
           extra.
Proof.
  unfold infer_email_pattern.
  destruct (String.eqb_spec name "") as [E|N].
  - subst name. exists []. split; [reflexivity|].
    split; [right; split; [reflexivity|simpl; lia]|constructor].
  - pose proof (str_split_ws_nonempty (str_lower name)) as NE.
    destruct (str_split_ws (str_lower name)) as [|first parts] eqn:P.
    + exists []. split; [reflexivity|].
      split; [right; split; [reflexivity|simpl; lia]|constructor].
    + destruct parts as [|second parts'].
      * exists []. split; [reflexivity|].
        split; [right; split; [reflexivity|simpl; lia]|constructor].
      * assert (L : exists last,
                   list_last_item (first :: second :: parts') = Ok last /\
                   last <> "").
        { unfold list_last_item, list_item.
          destruct (nth_error (first :: second :: parts')
                      (List.length (first :: second :: parts') - 1))
            as [last|] eqn:Nth.
          - exists last. split; [reflexivity|].
            apply nth_error_In in Nth.
            rewrite Forall_forall in NE. exact (NE _ Nth).
          - apply nth_error_None in Nth. simpl in Nth. lia. }
        destruct L as (last & Last & LastNE).
        assert (FirstNE : first <> "") by (inversion NE; assumption).
        destruct first as [|f0 first']; [contradiction|].
        destruct last as [|l0 last']; [contradiction|].
        cbn [List.length Nat.leb]. unfold list_item at 1. cbn [nth_error bind].
        rewrite Last. cbn [bind str_item String.get].
        eexists. split; [reflexivity|].
        split; [left; split; [reflexivity|simpl; lia]|].
        repeat constructor.
        -- exists (String f0 first' ++ "." ++ String l0 last').
           rewrite !str_append_assoc. reflexivity.
        -- exists (String f0 first' ++ "_" ++ String l0 last').
           rewrite !str_append_assoc. reflexivity.
        -- exists (String f0 first' ++ String l0 last').
           rewrite !str_append_assoc. reflexivity.
        -- exists (String f0 "" ++ String l0 last').
           rewrite !str_append_assoc. reflexivity.
        -- exists (String f0 first' ++ "." ++ String l0 "").
           rewrite !str_append_assoc. reflexivity.
Qed.

Lemma prefix_split (p s : string) :
  String.prefix p s = true <-> exists post, s = p ++ post.
Proof.
  revert s. induction p as [|c p IH]; intro s.
  - split; [intros _; exists s; reflexivity|intros _; destruct s; reflexivity].
  - destruct s as [|c' s]; cbn [String.prefix append].
    + split; [discriminate|intros [post E]; discriminate].
    + destruct (ascii_dec c c') as [E|N].
      * subst c'. rewrite IH. split; intros [post E]; exists post;
          [rewrite E; reflexivity|inversion E; reflexivity].
      * split; [discriminate|]. intros [post E]. inversion E. congruence.
Qed.

Lemma re_search_split (match_here : string -> bool) (s : string) :
  re_search match_here s = true <->
  exists pre rest, s = pre ++ rest /\ match_here rest = true.
Proof.
  induction s as [|c s IH]; cbn [re_search].
  - rewrite orb_false_r. split.
    + intro H. exists "", "". split; [reflexivity|exact H].
    + intros (pre & rest & E & H). destruct pre; [|discriminate].
      simpl in E. subst rest. exact H.
  - rewrite orb_true_iff, IH. split.
    + intros [H|(pre & rest & E & H)].
      * exists "", (String c s). split; [reflexivity|exact H].
      * exists (String c pre), rest. split; [simpl; rewrite E; reflexivity|exact H].
    + intros (pre & rest & E & H). destruct pre as [|c' pre].
      * left. simpl in E. subst rest. exact H.
      * right. simpl in E. inversion E; subst. exists pre, rest.
        split; [reflexivity|exact H].
Qed.

(** X16: [validate_linkedin_url] accepts exactly the strings that hold
    [linkedin.com/in/] or [linkedin.com/company/] somewhere; the pattern is
    searched, not anchored, so a string that is accepted stays accepted
    with anything put before or after it. *)
Theorem validate_linkedin_url_unanchored (url : string) :
  (validate_linkedin_url url = true <->
   exists pre post,
     url = pre ++ "linkedin.com/in/" ++ post \/
     url = pre ++ "linkedin.com/company/" ++ post) /\
  (forall before after,
     validate_linkedin_url url = true ->
     validate_linkedin_url (before ++ url ++ after) = true).
Proof.
  assert (Iff : forall s,
             validate_linkedin_url s = true <->
             exists pre post,
               s = pre ++ "linkedin.com/in/" ++ post \/
               s = pre ++ "linkedin.com/company/" ++ post).
  { intro s. unfold validate_linkedin_url. rewrite re_search_split. split.
    - intros (pre & rest & E & H). unfold linkedin_path in H.
      apply orb_true_iff in H. destruct H as [H|H];
        apply prefix_split in H; destruct H as [post P];
        exists pre, post; subst; [left|right]; reflexivity.
    - intros (pre & post & [E|E]); subst s.
      + exists pre, ("linkedin.com/in/" ++ post). split; [reflexivity|].
        unfold linkedin_path. apply orb_true_iff. left.
        apply prefix_split. exists post; reflexivity.
      + exists pre, ("linkedin.com/company/" ++ post). split; [reflexivity|].
        unfold linkedin_path. apply orb_true_iff. right.
        apply prefix_split. exists post; reflexivity. }
  split; [apply Iff|].
  intros before after H. apply Iff in H. destruct H as (pre & post & E).
  apply Iff. exists (before ++ pre), (post ++ after).
  destruct E as [E|E]; subst url; [left|right];
    rewrite !str_append_assoc; reflexivity.
Qed.
